(** * statsig: error statistics with confidence bounds and pairwise comparison

    A shallow embedding of [statsig.py]: the three metric functions [rmse],
    [mae], [me], the helper [stdevp] and the comparison driver of the
    [__main__] block (file reading, console formatting and plotting are left
    out; the driver takes the table already read and emits structured rows).

    The program computes on numpy float64 values.  Its code is translated
    once, over an interface [Float] of the float operations it uses, and read
    in two ways:
    - [xreal], the reals extended with the IEEE special values [+inf], [-inf]
      and [NaN], with exact arithmetic on the finite values (no rounding, no
      overflow, no signed zero).  The formulas of the specification are
      formulas on real numbers; the theorems that compare the code with them
      are stated here: they describe the program up to rounding and
      overflow.
    - [binary64], IEEE 754 double precision as specified by [SpecFloat]
      (round to nearest even): the arithmetic of the program itself.  What
      the code returns on floats, for all inputs (which components are NaN,
      which are never negative, what an overflow does), is stated here, and
      the code is run here on concrete inputs.

    numpy functions are modelled by their documented meaning: [np.sum] adds
    from left to right starting at zero (numpy adds in blocks for eight or
    more elements; both orders agree in exact arithmetic and whenever the
    partial sums are exact), [x**2] is [x*x], [np.corrcoef] follows numpy's
    [cov]/[corrcoef] (covariance with divisor [N-1], division by the two
    standard deviations, clipping to [-1,1]). *)

From Stdlib Require Import Reals Lra Lia ZArith List String Bool Psatz.
From Stdlib Require Import Floats.SpecFloat DecimalString.
Import ListNotations.

Set Implicit Arguments.

(** ** The float interface *)

Class Float (F : Type) : Type := {
  fadd : F -> F -> F;
  fsub : F -> F -> F;
  fmul : F -> F -> F;
  fdiv : F -> F -> F;
  fsqrt : F -> F;
  fabs : F -> F;
  fltb : F -> F -> bool;
  of_int : Z -> F
}.

Declare Scope flt_scope.
Delimit Scope flt_scope with flt.
Infix "+" := fadd : flt_scope.
Infix "-" := fsub : flt_scope.
Infix "*" := fmul : flt_scope.
Infix "/" := fdiv : flt_scope.
Infix "<?" := fltb : flt_scope.

(** ** Exceptions, standard output and the monad of the program *)

Inductive exn : Type :=
| ValueError   (* numpy: operands could not be broadcast together; no field *)
| TypeError    (* unpacking [None] *)
| IndexError.  (* list index out of range *)

Inductive result (A : Type) : Type :=
| Ok (a : A)
| Raise (e : exn).
Arguments Ok {A} a.
Arguments Raise {A} e.

(** What the program writes: the text of a [print], or a row of the pairwise
    table (the values handed to [ps.format], before formatting). *)
Inductive line (F : Type) : Type :=
| Text (s : string)
| Row (m_i m_j : string) (rmse_i rmse_j diff comp_error : F) (significance : bool).
Arguments Text {F} s.
Arguments Row {F} m_i m_j rmse_i rmse_j diff comp_error significance.

(** A computation reads the output written so far and returns a value or an
    exception, together with the output (what was written before an exception
    stays written). *)
Definition M (F A : Type) : Type := list (line F) -> result A * list (line F).

Definition ret {F A} (a : A) : M F A := fun out => (Ok a, out).
Definition raise {F A} (e : exn) : M F A := fun out => (Raise e, out).
Definition bind {F A B} (c : M F A) (k : A -> M F B) : M F B :=
  fun out => match c out with
             | (Ok a, out') => k a out'
             | (Raise e, out') => (Raise e, out')
             end.
Definition print {F} (l : line F) : M F unit := fun out => (Ok tt, out ++ [l]).
Definition lift {F A} (r : result A) : M F A := fun out => (r, out).

Declare Scope m_scope.
Delimit Scope m_scope with m.
Notation "x <- c ;; k" := (bind c (fun x => k))
  (at level 61, c at next level, right associativity) : m_scope.
Notation "' p <- c ;; k" := (bind c (fun x => let 'p := x in k))
  (at level 61, p pattern, c at next level, right associativity) : m_scope.
Notation "c ;;; k" := (bind c (fun _ => k))
  (at level 61, right associativity) : m_scope.

(** [for x in xs: body x], the body run for its effects. *)
Fixpoint for_each {F A} (xs : list A) (body : A -> M F unit) : M F unit :=
  match xs with
  | [] => ret tt
  | x :: xs' => bind (body x) (fun _ => for_each xs' body)
  end.

(** [for x in xs: acc.append(f x)], the results collected in order. *)
Fixpoint collect {F A B} (xs : list A) (f : A -> M F B) : M F (list B) :=
  match xs with
  | [] => ret []
  | x :: xs' => bind (f x) (fun b => bind (collect xs' f) (fun bs => ret (b :: bs)))
  end.

(** ** The program, over any float *)

Section Program.
Context {F : Type} {FL : Float F}.
Local Open Scope flt_scope.
Local Open Scope string_scope.

(** [len] as a Python int. *)
Definition len {A} (X : list A) : Z := Z.of_nat (List.length X).

(** The literal [1.96]: the float nearest to 196/100. *)
Definition c1_96 : F := of_int 196 / of_int 100.

(** Elementwise [X op Y] on one-dimensional arrays, with numpy's
    broadcasting: equal shapes, or one of the two of length one; anything
    else raises [ValueError]. *)
Fixpoint zip_with (op : F -> F -> F) (X Y : list F) : list F :=
  match X, Y with
  | x :: X', y :: Y' => op x y :: zip_with op X' Y'
  | _, _ => []
  end.

Definition elementwise (op : F -> F -> F) (X Y : list F) : result (list F) :=
  if Nat.eqb (List.length X) (List.length Y) then Ok (zip_with op X Y)
  else match X, Y with
       | [x], _ => Ok (map (op x) Y)
       | _, [y] => Ok (map (fun x => op x y) X)
       | _, _ => Raise ValueError
       end.

(** [np.sum(X)] and [X.mean()]. *)
Definition np_sum (X : list F) : F := fold_left fadd X (of_int 0).
Definition np_mean (X : list F) : F := np_sum X / of_int (len X).

(** [X**2], elementwise and on a scalar. *)
Definition sq (x : F) : F := x * x.

(** [stdevp(X, X_hat, N)]: [np.sqrt(np.sum((X-X_hat)**2)/N)]. *)
Definition stdevp (X : list F) (X_hat : F) (N : Z) : F :=
  fsqrt (np_sum (map (fun x => sq (x - X_hat)) X) / of_int N).

(** The text printed by [rmse] below nine points. *)
Definition not_enough_points (N : Z) : string :=
  "Not enough points. " ++ NilZero.string_of_int (Z.to_int N)
  ++ " datapoints given. At least 9 is required".

(** [rmse(X, Y)].  Below nine points it prints and returns [None]. *)
Definition rmse (X Y : list F) : M F (option (F * F * F)) :=
  (let N := len X in
   if (N <? 9)%Z then
     print (Text (not_enough_points N)) ;;;
     ret None
   else
     diff <- lift (elementwise fsub X Y) ;;
     let diff := map sq diff in
     let rmse := fsqrt (np_mean diff) in
     let le := rmse * (of_int 1 - fsqrt (of_int 1 - c1_96 * fsqrt (of_int 2) / fsqrt (of_int (N - 1)))) in
     let ue := rmse * (fsqrt (of_int 1 + c1_96 * fsqrt (of_int 2) / fsqrt (of_int (N - 1))) - of_int 1) in
     ret (Some (rmse, le, ue)))%m.

(** [mae(X, Y)]. *)
Definition mae (X Y : list F) : M F (F * F * F) :=
  (let N := len X in
   d <- lift (elementwise fsub X Y) ;;
   let mae := map fabs d in
   let mae := np_mean mae in
   let le := mae * (of_int 1 - fsqrt (of_int 1 - c1_96 * fsqrt (of_int 2) / fsqrt (of_int (N - 1)))) in
   let ue := mae * (fsqrt (of_int 1 + c1_96 * fsqrt (of_int 2) / fsqrt (of_int (N - 1))) - of_int 1) in
   ret (mae, le, ue))%m.

(** [me(X, Y)]. *)
Definition me (X Y : list F) : M F (F * F) :=
  (let N := len X in
   error <- lift (elementwise fsub X Y) ;;
   let me := np_mean error in
   let s_N := stdevp error me N in
   let e := c1_96 * s_N / fsqrt (of_int N) in
   ret (me, e))%m.

End Program.

(** ** The comparison driver *)

Section Driver.
Context {F : Type} {FL : Float F}.
Local Open Scope flt_scope.

(** [data[name]] on the table read by [np.genfromtxt(..., names=True)]: the
    column of that name; numpy raises [ValueError] when there is none. *)
Fixpoint field (name : string) (data : list (string * list F)) : result (list F) :=
  match data with
  | [] => Raise ValueError
  | (k, col) :: data' => if String.eqb k name then Ok col else field name data'
  end.

(** [l[i]] on a Python list. *)
Definition index {A} (l : list A) (i : nat) : result A :=
  match nth_error l i with
  | Some a => Ok a
  | None => Raise IndexError
  end.

(** [a, b, c = v] where [v] may be [None]. *)
Definition unpack3 {A} (v : option A) : result A :=
  match v with
  | Some t => Ok t
  | None => Raise TypeError
  end.

(** [np.clip(c, lo, hi)]: [minimum(maximum(c, lo), hi)], a NaN stays. *)
Definition clip (c lo hi : F) : F :=
  if c <? lo then lo else if hi <? c then hi else c.

(** [np.dot] of two one-dimensional arrays of one length. *)
Definition dot (x y : list F) : F := np_sum (zip_with fmul x y).

(** [np.corrcoef(x, y)[0][1]].  [np.cov] stacks the two series (a
    [ValueError] when their lengths differ), subtracts from each its mean,
    takes the dot products and multiplies them by [1/fact], where
    [fact = N - 1], or [0.0] when that is not positive; [np.corrcoef] divides
    the covariance by the square roots of the two variances, one after the
    other, and clips the quotient to [-1, 1]. *)
Definition corrcoef (x y : list F) : result F :=
  if Nat.eqb (List.length x) (List.length y) then
    let N := len x in
    let fact := if (N - 1 <=? 0)%Z then of_int 0 else of_int (N - 1) in
    let x' := map (fun v => v - np_mean x) x in
    let y' := map (fun v => v - np_mean y) y in
    let k := of_int 1 / fact in
    let c00 := dot x' x' * k in
    let c01 := dot x' y' * k in
    let c11 := dot y' y' * k in
    Ok (clip (c01 / fsqrt c00 / fsqrt c11) (of_int (-1)) (of_int 1))
  else Raise ValueError.

(** The nine lists filled by the first loop. *)
Record stats : Type := {
  rmse_list : list F; lower_error : list F; upper_error : list F;
  mae_list : list F;  mae_lower : list F;   mae_upper : list F;
  me_list : list F;   me_lower : list F;    me_upper : list F
}.

Definition no_stats : stats :=
  {| rmse_list := []; lower_error := []; upper_error := [];
     mae_list := [];  mae_lower := [];   mae_upper := [];
     me_list := [];   me_lower := [];    me_upper := [] |}.

(** [for x in xs: s = body x s], a loop that updates local variables. *)
Fixpoint for_fold {A S} (xs : list A) (body : A -> S -> M F S) (s : S) : M F S :=
  match xs with
  | [] => ret s
  | x :: xs' => bind (body x s) (fun s' => for_fold xs' body s')
  end.

(** The body of [for i in xrange(nm)], lines 158 to 177. *)
Definition metrics_step (method_data : list (list F)) (ref : list F)
    (i : nat) (s : stats) : M F stats :=
  (mdata <- lift (index method_data i) ;;
   r <- rmse mdata ref ;;
   '(mrmse, mle, mue) <- lift (unpack3 r) ;;
   '(mmae, maele, maeue) <- mae mdata ref ;;
   '(mme, mmee) <- me mdata ref ;;
   ret {| rmse_list := rmse_list s ++ [mrmse];
          lower_error := lower_error s ++ [mle];
          upper_error := upper_error s ++ [mue];
          mae_list := mae_list s ++ [mmae];
          mae_lower := mae_lower s ++ [maele];
          mae_upper := mae_upper s ++ [maeue];
          me_list := me_list s ++ [mme];
          me_lower := me_lower s ++ [mmee];
          me_upper := me_upper s ++ [mmee] |})%m.

(** Line 201, the compatible error, and line 202, the verdict. *)
Definition comp_error_of (lower upper r_ij : F) : F :=
  fsqrt (sq upper + sq lower - of_int 2 * r_ij * upper * lower).

Definition significance_of (rmse_i rmse_j comp_error : F) : bool :=
  fabs (rmse_i - rmse_j) <? comp_error.

(** The body of the two nested loops, lines 186 to 204.  The test
    [rmse_i > rmse_j] is [rmse_j < rmse_i]. *)
Definition pair_step (methods : list string) (method_data : list (list F))
    (s : stats) (i j : nat) : M F unit :=
  (m_i <- lift (index methods i) ;;
   m_j <- lift (index methods j) ;;
   rmse_i <- lift (index (rmse_list s) i) ;;
   rmse_j <- lift (index (rmse_list s) j) ;;
   d_i <- lift (index method_data i) ;;
   d_j <- lift (index method_data j) ;;
   r_ij <- lift (corrcoef d_i d_j) ;;
   '(lower, upper) <-
     (if rmse_j <? rmse_i then
        lower <- lift (index (lower_error s) i) ;;
        upper <- lift (index (upper_error s) j) ;;
        ret (lower, upper)
      else
        lower <- lift (index (lower_error s) j) ;;
        upper <- lift (index (upper_error s) i) ;;
        ret (lower, upper)) ;;
   let comp_error := comp_error_of lower upper r_ij in
   let significance := significance_of rmse_i rmse_j comp_error in
   print (Row m_i m_j rmse_i rmse_j (rmse_i - rmse_j) comp_error significance))%m.

Definition header : string :=
  "Method_A   Method_B      RMSE_A   RMSE_B   RMSE_A-RMSE_B  Comp Err  same?"%string.

(** The [__main__] block up to the end of the pairwise table, on the table
    [data] read from the file: its columns in file order, each with its name. *)
Definition main (data : list (string * list F)) : M F stats :=
  (ref <- lift (field "REF" data) ;;
   let methods := map fst data in
   let methods := tl methods in
   method_data <- collect methods (fun method => lift (field method data)) ;;
   let nm := List.length methods in
   let median := np_mean ref in
   let null := map (fun _ => median) ref in
   let methods := methods ++ ["null"%string] in
   let method_data := method_data ++ [null] in
   let nm := (nm + 1)%nat in
   s <- for_fold (seq 0 nm) (metrics_step method_data ref) no_stats ;;
   print (Text header) ;;;
   for_each (seq 0 nm) (fun i =>
     for_each (seq (i + 1) (nm - (i + 1))) (fun j =>
       pair_step methods method_data s i j)) ;;;
   ret s)%m.

End Driver.

Arguments stats F : clear implicits.

(** ** First reading: extended reals *)

Inductive xreal : Type :=
| Fin (r : R)
| PInf
| NInf
| NaN.

Module XReal.
Local Open Scope R_scope.

Definition lt0 (r : R) : bool := if Rlt_dec r 0 then true else false.
Definition is0 (r : R) : bool := if Req_dec_T r 0 then true else false.

(** The infinity of the given sign ([true] is negative). *)
Definition inf (neg : bool) : xreal := if neg then NInf else PInf.

Definition opp (x : xreal) : xreal :=
  match x with
  | Fin a => Fin (- a)
  | PInf => NInf
  | NInf => PInf
  | NaN => NaN
  end.

Definition add (x y : xreal) : xreal :=
  match x, y with
  | NaN, _ | _, NaN => NaN
  | Fin a, Fin b => Fin (a + b)
  | PInf, NInf | NInf, PInf => NaN
  | PInf, _ | _, PInf => PInf
  | NInf, _ | _, NInf => NInf
  end.

Definition sub (x y : xreal) : xreal := add x (opp y).

(** An infinity times a finite value: NaN at zero, else the product of signs. *)
Definition mul_inf (neg : bool) (a : R) : xreal :=
  if is0 a then NaN else inf (xorb neg (lt0 a)).

Definition mul (x y : xreal) : xreal :=
  match x, y with
  | NaN, _ | _, NaN => NaN
  | Fin a, Fin b => Fin (a * b)
  | PInf, Fin a | Fin a, PInf => mul_inf false a
  | NInf, Fin a | Fin a, NInf => mul_inf true a
  | PInf, PInf | NInf, NInf => PInf
  | PInf, NInf | NInf, PInf => NInf
  end.

(** Division: a finite value by zero is an infinity of its sign, [0/0] and
    [inf/inf] are NaN, a finite value by an infinity is zero. *)
Definition div (x y : xreal) : xreal :=
  match x, y with
  | NaN, _ | _, NaN => NaN
  | Fin a, Fin b =>
      if is0 b then (if is0 a then NaN else inf (lt0 a)) else Fin (a / b)
  | Fin _, (PInf | NInf) => Fin 0
  | PInf, Fin b => inf (lt0 b)
  | NInf, Fin b => inf (negb (lt0 b))
  | (PInf | NInf), (PInf | NInf) => NaN
  end.

Definition sqrt (x : xreal) : xreal :=
  match x with
  | Fin a => if lt0 a then NaN else Fin (R_sqrt.sqrt a)
  | PInf => PInf
  | NInf => NaN
  | NaN => NaN
  end.

Definition abs (x : xreal) : xreal :=
  match x with
  | Fin a => Fin (Rabs a)
  | PInf | NInf => PInf
  | NaN => NaN
  end.

(** [x < y]: false as soon as one side is NaN. *)
Definition ltb (x y : xreal) : bool :=
  match x, y with
  | NaN, _ | _, NaN => false
  | Fin a, Fin b => if Rlt_dec a b then true else false
  | NInf, (Fin _ | PInf) => true
  | Fin _, PInf => true
  | _, _ => false
  end.

End XReal.

#[export] Instance xreal_float : Float xreal := {
  fadd := XReal.add;
  fsub := XReal.sub;
  fmul := XReal.mul;
  fdiv := XReal.div;
  fsqrt := XReal.sqrt;
  fabs := XReal.abs;
  fltb := XReal.ltb;
  of_int := fun z => Fin (IZR z)
}.

(** ** Second reading: IEEE 754 binary64 *)

Module B64.

Definition prec : Z := 53.
Definition emax : Z := 1024.

Definition binary64 : Type := spec_float.

(** The conversion of a Python int, rounded to nearest even. *)
Definition of_Z (z : Z) : binary64 := binary_normalize prec emax z 0 false.

End B64.

#[export] Instance binary64_float : Float B64.binary64 := {
  fadd := SFadd B64.prec B64.emax;
  fsub := SFsub B64.prec B64.emax;
  fmul := SFmul B64.prec B64.emax;
  fdiv := SFdiv B64.prec B64.emax;
  fsqrt := SFsqrt B64.prec B64.emax;
  fabs := SFabs;
  fltb := SFltb;
  of_int := B64.of_Z
}.

(** ** Binary64 values by shape *)

Module Shape.

(** A finite float: a zero, or a number with mantissa and exponent. *)
Definition finite (x : B64.binary64) : bool :=
  match x with
  | S754_zero _ | S754_finite _ _ _ => true
  | _ => false
  end.

(** Not NaN and not negative: [+0], a positive number or [+inf]. *)
Definition nonneg (x : B64.binary64) : bool :=
  match x with
  | S754_zero false | S754_infinity false | S754_finite false _ _ => true
  | _ => false
  end.

(** A finite number above zero. *)
Definition positive (x : B64.binary64) : bool :=
  match x with
  | S754_finite false _ _ => true
  | _ => false
  end.

End Shape.

(** ** The interval factors at the lengths evaluated *)

(** In binary64, at length [N]: the count [N] as a float, its square root
    and the two factors [1 - sqrt(1 - k)] and [sqrt(1 + k) - 1], with
    [k = 1.96*sqrt(2)/sqrt(N-1)], are finite numbers above zero. *)
Definition factors_positive (N : Z) : bool :=
  let k : B64.binary64 :=
    (c1_96 * fsqrt (of_int 2) / fsqrt (of_int (N - 1)))%flt in
  Shape.positive (of_int N)
  && Shape.positive (fsqrt (of_int N))
  && Shape.positive (of_int 1 - fsqrt (of_int 1 - k))%flt
  && Shape.positive (fsqrt (of_int 1 + k) - of_int 1)%flt.

(** [p] holds at the [n] integers from [lo] on. *)
Fixpoint holds_from (p : Z -> bool) (n : nat) (lo : Z) : bool :=
  match n with
  | O => true
  | S n' => p lo && holds_from p n' (lo + 1)
  end.

(** ** The formulas of the specification, on the reals *)

Module Spec.
Local Open Scope R_scope.

Definition Rsum (l : list R) : R := fold_right Rplus 0 l.

Definition mean (l : list R) : R := Rsum l / INR (List.length l).

(** The per-sample error [X - Y] of two series of one length. *)
Fixpoint diffs (X Y : list R) : list R :=
  match X, Y with
  | x :: X', y :: Y' => (x - y) :: diffs X' Y'
  | _, _ => []
  end.

(** [k = 1.96·√2/√(N−1)]. *)
Definition k (N : nat) : R := 1.96 * sqrt 2 / sqrt (INR N - 1).

(** [rmse = sqrt(mean((X−Y)^2))] and [mae = mean(|X−Y|)]. *)
Definition rmse (X Y : list R) : R := sqrt (mean (map Rsqr (diffs X Y))).
Definition mae (X Y : list R) : R := mean (map Rabs (diffs X Y)).

(** The lower and upper error of a point estimate [v] on [N] samples. *)
Definition lower (v : R) (N : nat) : R := v * (1 - sqrt (1 - k N)).
Definition upper (v : R) (N : nat) : R := v * (sqrt (1 + k N) - 1).

(** [s_N]: the population standard deviation of [E], divisor [N]. *)
Definition s_N (E : list R) : R :=
  sqrt (Rsum (map (fun e => Rsqr (e - mean E)) E) / INR (List.length E)).

(** [me = mean(X−Y)] and its half-width [e = 1.96·s_N/√N]. *)
Definition me (X Y : list R) : R := mean (diffs X Y).
Definition me_e (X Y : list R) : R :=
  1.96 * s_N (diffs X Y) / sqrt (INR (List.length X)).

(** The deviations of a series from its mean, and the sum of products of
    two series of one length. *)
Definition centered (x : list R) : list R := map (fun v => v - mean x) x.

Fixpoint dot (a b : list R) : R :=
  match a, b with
  | u :: a', v :: b' => u * v + dot a' b'
  | _, _ => 0
  end.

End Spec.

(** A series of real numbers as the array of floats it is given as. *)
Definition series (X : list R) : list xreal := map Fin X.

(** ** Tables of real series and the pairs the driver walks through *)

(** The table read from a file whose first column is [REF] and whose other
    columns are the candidate methods. *)
Definition table_of (ref : list R) (cols : list (string * list R))
  : list (string * list xreal) :=
  ("REF"%string, series ref) :: map (fun p => (fst p, series (snd p))) cols.

(** The null baseline: constant at the mean of the reference. *)
Definition null_of (ref : list R) : list R := map (fun _ => Spec.mean ref) ref.

(** The method registry: the candidates in file order, then the baseline. *)
Definition registry (ref : list R) (cols : list (string * list R))
  : list (string * list R) :=
  cols ++ [("null"%string, null_of ref)].

(** The pairs [(i, j)] with [i < j < nm], in the order of the two loops. *)
Definition pairs (nm : nat) : list (nat * nat) :=
  flat_map (fun i => map (pair i) (seq (i + 1) (nm - (i + 1)))) (seq 0 nm).

(** The correlation the driver gets for two series of reals. *)
Definition corr (x y : list R) : xreal :=
  match corrcoef (series x) (series y) with
  | Ok r => r
  | Raise _ => NaN
  end.

(** The two bounds the second loop combines: the lower error of the method
    with the larger RMSE and the upper error of the other. *)
Definition pick_bounds {F} {FL : Float F}
    (rmse_i le_i ue_i rmse_j le_j ue_j : F) : F * F :=
  if (rmse_j <? rmse_i)%flt then (le_i, ue_j) else (le_j, ue_i).

(** What the first loop leaves in the nine lists, for method series [Ms]. *)
Definition stats_of (ref : list R) (Ms : list (list R)) : stats xreal :=
  {| rmse_list := map (fun d => Fin (Spec.rmse d ref)) Ms;
     lower_error := map (fun d => Fin (Spec.lower (Spec.rmse d ref) (List.length d))) Ms;
     upper_error := map (fun d => Fin (Spec.upper (Spec.rmse d ref) (List.length d))) Ms;
     mae_list := map (fun d => Fin (Spec.mae d ref)) Ms;
     mae_lower := map (fun d => Fin (Spec.lower (Spec.mae d ref) (List.length d))) Ms;
     mae_upper := map (fun d => Fin (Spec.upper (Spec.mae d ref) (List.length d))) Ms;
     me_list := map (fun d => Fin (Spec.me d ref)) Ms;
     me_lower := map (fun d => Fin (Spec.me_e d ref)) Ms;
     me_upper := map (fun d => Fin (Spec.me_e d ref)) Ms |}.

(** The row the second loop prints for the methods [(m_i, d_i)] and
    [(m_j, d_j)]. *)
Definition row_of (ref : list R) (mi mj : string * list R) : line xreal :=
  let '(m_i, d_i) := mi in
  let '(m_j, d_j) := mj in
  let ri := Spec.rmse d_i ref in
  let rj := Spec.rmse d_j ref in
  let '(lower, upper) :=
    pick_bounds (Fin ri) (Fin (Spec.lower ri (List.length d_i))) (Fin (Spec.upper ri (List.length d_i)))
                (Fin rj) (Fin (Spec.lower rj (List.length d_j))) (Fin (Spec.upper rj (List.length d_j))) in
  let comp := comp_error_of lower upper (corr d_i d_j) in
  Row m_i m_j (Fin ri) (Fin rj) (Fin (ri - rj)) comp
      (significance_of (Fin ri) (Fin rj) comp).

(** The rows for all pairs of a registry, in the order of the loops. *)
Definition rows_of (ref : list R) (reg : list (string * list R)) : list (line xreal) :=
  map (fun p => row_of ref (nth (fst p) reg (EmptyString, []))
                           (nth (snd p) reg (EmptyString, [])))
      (pairs (List.length reg)).

(** ** The pairwise rule in the words of the specification *)

(** [row] is the row of the specification for the methods [(m_i, d_i)] and
    [(m_j, d_j)]: with the RMSE triples of both and the correlation [r] of
    their series, [lower] is the lower error of the method with the larger
    RMSE and [upper] the upper error of the other (with equal RMSE the two
    choices coincide); when [r] is a number, the compatible error is
    [sqrt(upper^2 + lower^2 - 2*r*upper*lower)] and the last column is [True]
    exactly when [|rmse_i - rmse_j|] is less than it; when [r] is NaN, the
    compatible error is NaN and the last column is [False]. *)
Definition claimed_row (ref : list R) (mi mj : string * list R)
    (row : line xreal) : Prop :=
  (exists ri lei uei rj lej uej r lower upper comp same,
    rmse (series (snd mi)) (series ref) [] = (Ok (Some (Fin ri, Fin lei, Fin uei)), [])
    /\ rmse (series (snd mj)) (series ref) [] = (Ok (Some (Fin rj, Fin lej, Fin uej)), [])
    /\ corrcoef (series (snd mi)) (series (snd mj)) = Ok r
    /\ (rj <= ri -> lower = lei /\ upper = uej)
    /\ (ri <= rj -> lower = lej /\ upper = uei)
    /\ ((exists rho, r = Fin rho /\ -1 <= rho <= 1
          /\ comp = Fin (sqrt (upper * upper + lower * lower - 2 * rho * upper * lower))
          /\ (same = true <->
               Rabs (ri - rj) < sqrt (upper * upper + lower * lower - 2 * rho * upper * lower)))
        \/ (r = NaN /\ comp = NaN /\ same = false))
    /\ row = Row (fst mi) (fst mj) (Fin ri) (Fin rj) (Fin (ri - rj)) comp same)%R.

(** What the specification asks of the verdict of a pair whose correlation is
    undefined: to be flagged, neither [True] nor [False]. *)
Definition indeterminate (significance : bool) : Prop :=
  significance <> true /\ significance <> false.

(** The nine lists after [k] turns of the first loop: [k] entries each, and
    the two error lists of the mean error equal. *)
Definition stats_filled {F} (s : stats F) (k : nat) : Prop :=
  List.length (rmse_list s) = k /\ List.length (lower_error s) = k
  /\ List.length (upper_error s) = k
  /\ List.length (mae_list s) = k /\ List.length (mae_lower s) = k
  /\ List.length (mae_upper s) = k
  /\ List.length (me_list s) = k /\ List.length (me_lower s) = k
  /\ me_upper s = me_lower s.

(** ** The rows of the pairwise table, over any float *)

(** [row] is what the second loop prints for the pair [p = (i, j)] of the
    method names [names] and series [md]: the two names, the two RMSE
    values, their difference, the compatible error of some lower and upper
    error with the correlation [r] of the two series, and the comparison of
    line 202. *)
Definition printed_pair {F} {FL : Float F} (names : list string)
    (md : list (list F)) (p : nat * nat) (row : line F) : Prop :=
  exists m_i m_j d_i d_j r rmse_i rmse_j lower upper,
    nth_error names (fst p) = Some m_i /\ nth_error names (snd p) = Some m_j
    /\ nth_error md (fst p) = Some d_i /\ nth_error md (snd p) = Some d_j
    /\ corrcoef d_i d_j = Ok r
    /\ row = Row m_i m_j rmse_i rmse_j (rmse_i - rmse_j)%flt
               (comp_error_of lower upper r)
               (significance_of rmse_i rmse_j (comp_error_of lower upper r)).

(** ** The end-to-end scenarios of the specification *)

Module Scenario.
Local Open Scope R_scope.

(** The reference series, and a candidate at a constant distance above it. *)
Definition ref : list R := [1; 2; 3; 4; 5; 6; 7; 8; 9; 10].
Definition shifted (c : R) (l : list R) : list R := map (fun x => x + c) l.

(** Candidate A is the reference plus one; B is the reference itself and C
    the reference plus five. *)
Definition A : list R := shifted 1 ref.
Definition B : list R := ref.
Definition C : list R := shifted 5 ref.

(** The table of the second scenario, as read from the file. *)
Definition table : list (string * list xreal) :=
  table_of ref [("B"%string, B); ("C"%string, C)].

(** The same series as binary64 floats. *)
Definition ref64 : list B64.binary64 := map B64.of_Z [1; 2; 3; 4; 5; 6; 7; 8; 9; 10]%Z.
Definition A64 : list B64.binary64 := map B64.of_Z [2; 3; 4; 5; 6; 7; 8; 9; 10; 11]%Z.
Definition C64 : list B64.binary64 := map B64.of_Z [6; 7; 8; 9; 10; 11; 12; 13; 14; 15]%Z.
Definition table64 : list (string * list B64.binary64) :=
  [("REF"%string, ref64); ("B"%string, ref64); ("C"%string, C64)].

End Scenario.

(** * Proofs *)

(** ** Arithmetic of the extended reals on finite values *)

Section IdealArith.
Local Open Scope R_scope.

Lemma is0_false (r : R) : r <> 0 -> XReal.is0 r = false.
Proof. intros H. unfold XReal.is0. destruct (Req_dec_T r 0); [contradiction | reflexivity]. Qed.

Lemma is0_true (r : R) : r = 0 -> XReal.is0 r = true.
Proof. intros H. unfold XReal.is0. destruct (Req_dec_T r 0); [reflexivity | contradiction]. Qed.

Lemma lt0_false (r : R) : 0 <= r -> XReal.lt0 r = false.
Proof. intros H. unfold XReal.lt0. destruct (Rlt_dec r 0); [lra | reflexivity]. Qed.

Lemma lt0_true (r : R) : r < 0 -> XReal.lt0 r = true.
Proof. intros H. unfold XReal.lt0. destruct (Rlt_dec r 0); [reflexivity | lra]. Qed.

Lemma div_fin (a b : R) : b <> 0 -> XReal.div (Fin a) (Fin b) = Fin (a / b).
Proof. intros H. simpl. now rewrite is0_false. Qed.

Lemma sqrt_fin (a : R) : 0 <= a -> XReal.sqrt (Fin a) = Fin (sqrt a).
Proof. intros H. simpl. now rewrite lt0_false. Qed.

Lemma sqrt_neg (a : R) : a < 0 -> XReal.sqrt (Fin a) = NaN.
Proof. intros H. simpl. now rewrite lt0_true. Qed.

Lemma ltb_fin (a b : R) : XReal.ltb (Fin a) (Fin b) = true <-> a < b.
Proof. simpl. destruct (Rlt_dec a b); split; intros; try easy. Qed.

End IdealArith.

(** ** Series of real numbers run through the code *)

Section IdealSeries.
Local Open Scope R_scope.

Lemma series_length X : List.length (series X) = List.length X.
Proof. apply length_map. Qed.

Lemma len_series X : len (series X) = Z.of_nat (List.length X).
Proof. unfold len. now rewrite series_length. Qed.

Lemma diffs_length X Y :
  List.length X = List.length Y -> List.length (Spec.diffs X Y) = List.length X.
Proof.
  revert Y. induction X as [|x X IH]; intros [|y Y] H; simpl in *; try congruence.
  f_equal. apply IH. congruence.
Qed.

Lemma zip_with_sub X Y :
  zip_with fsub (series X) (series Y) = series (Spec.diffs X Y).
Proof.
  revert Y. induction X as [|x X IH]; intros [|y Y]; simpl; try reflexivity.
  now rewrite IH.
Qed.

Lemma elementwise_sub X Y :
  List.length X = List.length Y ->
  elementwise fsub (series X) (series Y) = Ok (series (Spec.diffs X Y)).
Proof.
  intros H. unfold elementwise. rewrite !series_length, H, Nat.eqb_refl.
  now rewrite zip_with_sub.
Qed.

Lemma fold_add_series (l : list R) (a : R) :
  fold_left fadd (series l) (Fin a) = Fin (a + Spec.Rsum l).
Proof.
  revert a. induction l as [|x l IH]; intros a; simpl.
  - f_equal. lra.
  - rewrite IH. f_equal. lra.
Qed.

Lemma np_sum_series (l : list R) : np_sum (series l) = Fin (Spec.Rsum l).
Proof. unfold np_sum. simpl. rewrite fold_add_series. f_equal. lra. Qed.

Lemma IZR_len (n : nat) : IZR (Z.of_nat n) = INR n.
Proof. symmetry. apply INR_IZR_INZ. Qed.

Lemma np_mean_series (l : list R) :
  l <> [] -> np_mean (series l) = Fin (Spec.mean l).
Proof.
  intros H. unfold np_mean. rewrite np_sum_series, len_series.
  cbn [fdiv of_int xreal_float]. rewrite IZR_len, div_fin; [reflexivity|].
  apply not_0_INR. destruct l; simpl; congruence.
Qed.

Lemma map_sq_series (l : list R) : map sq (series l) = series (map Rsqr l).
Proof. unfold series. rewrite !map_map. reflexivity. Qed.

Lemma map_abs_series (l : list R) : map fabs (series l) = series (map Rabs l).
Proof. unfold series. rewrite !map_map. reflexivity. Qed.

Lemma Rsum_sqr_nonneg (l : list R) : 0 <= Spec.Rsum (map Rsqr l).
Proof.
  induction l as [|x l IH]; simpl; [lra|].
  pose proof (Rle_0_sqr x). lra.
Qed.

Lemma Rsum_abs_nonneg (l : list R) : 0 <= Spec.Rsum (map Rabs l).
Proof.
  induction l as [|x l IH]; simpl; [lra|].
  pose proof (Rabs_pos x). lra.
Qed.

Lemma mean_nonneg (l : list R) : 0 <= Spec.Rsum l -> 0 <= Spec.mean l.
Proof.
  intros H. unfold Spec.mean. destruct l as [|x l].
  - simpl. lra.
  - apply Rmult_le_pos; [assumption|].
    left. apply Rinv_0_lt_compat. apply lt_0_INR. simpl. lia.
Qed.

Lemma sum_sq_dev_nonneg (E : list R) (m : R) :
  0 <= Spec.Rsum (map (fun e => Rsqr (e - m)) E).
Proof.
  induction E as [|e E IH]; simpl; [lra|].
  pose proof (Rle_0_sqr (e - m)). lra.
Qed.

Lemma map_dev_series (E : list R) (m : R) :
  map (fun x => sq (x - Fin m)%flt) (series E)
  = series (map (fun e => Rsqr (e - m)) E).
Proof. unfold series. rewrite !map_map. reflexivity. Qed.

(** [stdevp] on a non-empty series of reals and its mean. *)
Lemma stdevp_series (E : list R) :
  E <> [] ->
  stdevp (series E) (Fin (Spec.mean E)) (Z.of_nat (List.length E)) = Fin (Spec.s_N E).
Proof.
  intros HE. unfold stdevp. rewrite map_dev_series, np_sum_series.
  cbn [fdiv fsqrt of_int xreal_float]. rewrite IZR_len.
  assert (Hn : 0 < INR (List.length E))
    by (apply lt_0_INR; destruct E; simpl; [congruence | lia]).
  rewrite div_fin by lra. rewrite sqrt_fin; [reflexivity|].
  apply Rmult_le_pos; [apply sum_sq_dev_nonneg|].
  left. now apply Rinv_0_lt_compat.
Qed.

End IdealSeries.

(** ** The interval factors *)

Section Interval.
Local Open Scope R_scope.

Lemma c1_96_fin : @c1_96 xreal _ = Fin 1.96.
Proof.
  unfold c1_96. cbn [fdiv of_int xreal_float]. rewrite div_fin by lra.
  apply f_equal. lra.
Qed.

Lemma sqrt2_sq : sqrt 2 * sqrt 2 = 2.
Proof. apply sqrt_sqrt. lra. Qed.

Lemma sqrt_pred_pos (n : nat) : (2 <= n)%nat -> 0 < sqrt (INR n - 1).
Proof.
  intros H. apply sqrt_lt_R0. apply le_INR in H. simpl in H. lra.
Qed.

Lemma sqrt_pred_sq (n : nat) :
  (2 <= n)%nat -> sqrt (INR n - 1) * sqrt (INR n - 1) = INR n - 1.
Proof.
  intros H. apply sqrt_sqrt. apply le_INR in H. simpl in H. lra.
Qed.

Lemma k_pos (n : nat) : (2 <= n)%nat -> 0 < Spec.k n.
Proof.
  intros H. unfold Spec.k. apply Rdiv_lt_0_compat.
  - apply Rmult_lt_0_compat; [lra | apply sqrt_lt_R0; lra].
  - now apply sqrt_pred_pos.
Qed.

(** From nine samples on the radicand [1 - k] is not negative. *)
Lemma k_le_1 (n : nat) : (9 <= n)%nat -> Spec.k n <= 1.
Proof.
  intros H. assert (H2 : (2 <= n)%nat) by lia.
  pose proof (sqrt_pred_pos H2) as Hp. pose proof (sqrt_pred_sq H2) as Hs.
  pose proof sqrt2_sq as H22. pose proof (sqrt_pos 2) as H2p.
  apply le_INR in H. simpl in H.
  unfold Spec.k.
  assert (Hq : 1.96 * sqrt 2 / sqrt (INR n - 1) * sqrt (INR n - 1) = 1.96 * sqrt 2)
    by (field; lra).
  destruct (Rle_dec (1.96 * sqrt 2) (sqrt (INR n - 1))) as [Hle|Hn].
  - nra.
  - exfalso. apply Rnot_le_lt in Hn. nra.
Qed.

(** With two to eight samples it is negative. *)
Lemma k_gt_1 (n : nat) : (2 <= n <= 8)%nat -> 1 < Spec.k n.
Proof.
  intros [H2 H8].
  pose proof (sqrt_pred_pos H2) as Hp. pose proof (sqrt_pred_sq H2) as Hs.
  pose proof sqrt2_sq as H22. pose proof (sqrt_pos 2) as H2p.
  apply le_INR in H8. simpl in H8.
  unfold Spec.k.
  assert (Hq : 1.96 * sqrt 2 / sqrt (INR n - 1) * sqrt (INR n - 1) = 1.96 * sqrt 2)
    by (field; lra).
  destruct (Rlt_dec (sqrt (INR n - 1)) (1.96 * sqrt 2)) as [Hlt|Hn].
  - nra.
  - exfalso. apply Rnot_lt_le in Hn. nra.
Qed.

(** The quotient [1.96*np.sqrt(2)/np.sqrt(N-1)] of the code is [k]. *)
Lemma k_code (n : nat) :
  (2 <= n)%nat ->
  (c1_96 * fsqrt (of_int 2) / fsqrt (of_int (Z.of_nat n - 1)))%flt = Fin (Spec.k n).
Proof.
  intros H. rewrite c1_96_fin. cbn [fmul fdiv fsqrt of_int xreal_float].
  rewrite minus_IZR, IZR_len.
  pose proof (sqrt_pred_pos H) as Hp.
  assert (H1 : 0 <= INR n - 1) by (apply le_INR in H; simpl in H; lra).
  rewrite (sqrt_fin (a:=2)) by lra. rewrite (sqrt_fin H1).
  cbn [XReal.mul]. rewrite div_fin by lra. reflexivity.
Qed.

Lemma lower_factor_code (n : nat) :
  (9 <= n)%nat ->
  (of_int 1 - fsqrt (of_int 1 - c1_96 * fsqrt (of_int 2) / fsqrt (of_int (Z.of_nat n - 1))))%flt
  = Fin (1 - sqrt (1 - Spec.k n)).
Proof.
  intros H. rewrite k_code by lia. pose proof (k_le_1 H) as Hk.
  cbn [fsub fsqrt of_int xreal_float XReal.sub XReal.add XReal.opp].
  rewrite sqrt_fin by lra. reflexivity.
Qed.

Lemma lower_factor_nan (n : nat) :
  (2 <= n <= 8)%nat ->
  (of_int 1 - fsqrt (of_int 1 - c1_96 * fsqrt (of_int 2) / fsqrt (of_int (Z.of_nat n - 1))))%flt
  = NaN.
Proof.
  intros H. rewrite k_code by lia. pose proof (k_gt_1 H) as Hk.
  cbn [fsub fsqrt of_int xreal_float XReal.sub XReal.add XReal.opp].
  rewrite sqrt_neg by lra. reflexivity.
Qed.

Lemma upper_factor_code (n : nat) :
  (2 <= n)%nat ->
  (fsqrt (of_int 1 + c1_96 * fsqrt (of_int 2) / fsqrt (of_int (Z.of_nat n - 1))) - of_int 1)%flt
  = Fin (sqrt (1 + Spec.k n) - 1).
Proof.
  intros H. rewrite k_code by lia. pose proof (k_pos H) as Hk.
  cbn [fadd fsub fsqrt of_int xreal_float XReal.sub XReal.add XReal.opp].
  rewrite sqrt_fin by lra. reflexivity.
Qed.

Lemma lower_factor_bounds (n : nat) :
  (9 <= n)%nat -> 0 < 1 - sqrt (1 - Spec.k n) <= 1.
Proof.
  intros H. pose proof (k_le_1 H) as Hk.
  assert (Hp : 0 < Spec.k n) by (apply k_pos; lia).
  pose proof (sqrt_pos (1 - Spec.k n)) as H0.
  assert (sqrt (1 - Spec.k n) < sqrt 1) by (apply sqrt_lt_1; lra).
  rewrite sqrt_1 in *. lra.
Qed.

Lemma upper_factor_pos (n : nat) :
  (2 <= n)%nat -> 0 < sqrt (1 + Spec.k n) - 1.
Proof.
  intros H. assert (Hp : 0 < Spec.k n) by (apply k_pos; lia).
  assert (sqrt 1 < sqrt (1 + Spec.k n)) by (apply sqrt_lt_1; lra).
  rewrite sqrt_1 in *. lra.
Qed.

End Interval.

(** ** The three metrics on series of reals *)

Section IdealMetrics.
Local Open Scope R_scope.
Variables X Y : list R.
Hypothesis same_length : List.length X = List.length Y.

Let n := List.length X.

Lemma diffs_nonempty : (1 <= n)%nat -> Spec.diffs X Y <> [].
Proof.
  intros H E. apply (f_equal (@List.length R)) in E.
  rewrite diffs_length in E by assumption. simpl in E. subst n. lia.
Qed.

Lemma spec_rmse_nonneg : 0 <= Spec.rmse X Y.
Proof. apply sqrt_pos. Qed.

Lemma spec_mae_nonneg : 0 <= Spec.mae X Y.
Proof. apply mean_nonneg, Rsum_abs_nonneg. Qed.

(** [rmse] from nine samples on. *)
Lemma rmse_series (out : list (line xreal)) :
  (9 <= n)%nat ->
  rmse (series X) (series Y) out
  = (Ok (Some (Fin (Spec.rmse X Y),
               Fin (Spec.lower (Spec.rmse X Y) n),
               Fin (Spec.upper (Spec.rmse X Y) n))), out).
Proof.
  intros H. unfold rmse. rewrite len_series. fold n.
  destruct (Z.ltb_spec (Z.of_nat n) 9) as [Hlt|_]; [lia|].
  unfold bind, lift, ret. rewrite elementwise_sub by assumption.
  rewrite map_sq_series, np_mean_series
    by (intros E; apply map_eq_nil in E; revert E; apply diffs_nonempty; lia).
  rewrite lower_factor_code by assumption. rewrite upper_factor_code by lia.
  cbn [fsqrt xreal_float].
  rewrite sqrt_fin by (apply mean_nonneg, Rsum_sqr_nonneg).
  reflexivity.
Qed.

(** [mae] on at least two samples: the point estimate and the upper error;
    the lower error is the product with the lower factor, whatever that is. *)
Lemma mae_series (out : list (line xreal)) :
  (2 <= n)%nat ->
  mae (series X) (series Y) out
  = (Ok (Fin (Spec.mae X Y),
         (Fin (Spec.mae X Y)
          * (of_int 1 - fsqrt (of_int 1 - c1_96 * fsqrt (of_int 2)
                                           / fsqrt (of_int (Z.of_nat n - 1)))))%flt,
         Fin (Spec.upper (Spec.mae X Y) n)), out).
Proof.
  intros H. unfold mae. rewrite len_series. fold n.
  unfold bind, lift, ret. rewrite elementwise_sub by assumption.
  rewrite map_abs_series, np_mean_series
    by (intros E; apply map_eq_nil in E; revert E; apply diffs_nonempty; lia).
  rewrite upper_factor_code by lia.
  reflexivity.
Qed.

(** [me] on at least one sample. *)
Lemma me_series (out : list (line xreal)) :
  (1 <= n)%nat ->
  me (series X) (series Y) out
  = (Ok (Fin (Spec.me X Y), Fin (Spec.me_e X Y)), out).
Proof.
  intros H. unfold me. rewrite len_series. fold n.
  unfold bind, lift, ret. rewrite elementwise_sub by assumption.
  pose proof (diffs_nonempty H) as HE.
  rewrite np_mean_series by assumption.
  replace (Z.of_nat n) with (Z.of_nat (List.length (Spec.diffs X Y)))
    by (now rewrite diffs_length).
  rewrite stdevp_series by assumption. rewrite diffs_length by assumption.
  rewrite c1_96_fin. cbn [fmul fdiv fsqrt of_int xreal_float XReal.mul].
  rewrite IZR_len.
  assert (Hn : 0 < INR (List.length X)) by (apply lt_0_INR; fold n; lia).
  rewrite sqrt_fin by lra.
  rewrite div_fin by (apply Rgt_not_eq, sqrt_lt_R0; assumption).
  reflexivity.
Qed.

End IdealMetrics.

(** ** The quadratic mean dominates the mean of absolute values *)

Section MeanInequality.
Local Open Scope R_scope.

Lemma Rsum_dev_expand (l : list R) (m : R) :
  Spec.Rsum (map (fun e => Rsqr (e - m)) l)
  = Spec.Rsum (map Rsqr l) - 2 * m * Spec.Rsum l + INR (List.length l) * (m * m).
Proof.
  induction l as [|x l IH].
  - simpl. lra.
  - cbn [map Spec.Rsum fold_right List.length]. fold (Spec.Rsum (map (fun e => Rsqr (e - m)) l)).
    fold (Spec.Rsum (map Rsqr l)). fold (Spec.Rsum l).
    rewrite IH, S_INR. unfold Rsqr. ring.
Qed.

Lemma Rsum_sqr_abs (l : list R) :
  Spec.Rsum (map Rsqr (map Rabs l)) = Spec.Rsum (map Rsqr l).
Proof.
  induction l as [|x l IH]; simpl; [reflexivity|].
  fold (Spec.Rsum (map Rsqr (map Rabs l))). fold (Spec.Rsum (map Rsqr l)).
  now rewrite IH, <- Rsqr_abs.
Qed.

(** [mean(|d|)^2 <= mean(d^2)], from [sum (|d_i| - m)^2 >= 0]. *)
Lemma mean_abs_sqr_le (l : list R) :
  l <> [] ->
  Spec.mean (map Rabs l) * Spec.mean (map Rabs l) <= Spec.mean (map Rsqr l).
Proof.
  intros Hl. unfold Spec.mean. rewrite !length_map.
  set (n := INR (List.length l)).
  assert (Hn : 0 < n) by (apply lt_0_INR; destruct l; simpl; [congruence | lia]).
  set (S1 := Spec.Rsum (map Rabs l)). set (S2 := Spec.Rsum (map Rsqr l)).
  pose proof (sum_sq_dev_nonneg (map Rabs l) (S1 / n)) as H.
  rewrite Rsum_dev_expand, Rsum_sqr_abs, length_map in H.
  fold S1 S2 n in H.
  assert (E : S2 - 2 * (S1 / n) * S1 + n * (S1 / n * (S1 / n)) = S2 - S1 * S1 / n)
    by (field; lra).
  rewrite E in H.
  assert (E2 : S1 / n * (S1 / n) = S1 * S1 / n / n) by (field; lra).
  rewrite E2. unfold Rdiv at 1 3. apply Rmult_le_compat_r; [|lra].
  left. now apply Rinv_0_lt_compat.
Qed.

Lemma spec_mae_le_rmse (X Y : list R) :
  List.length X = List.length Y -> (1 <= List.length X)%nat ->
  Spec.mae X Y <= Spec.rmse X Y.
Proof.
  intros HL HN. unfold Spec.rmse.
  pose proof (spec_mae_nonneg X Y) as H0. fold (Spec.mae X Y) in H0.
  rewrite <- (sqrt_Rsqr (Spec.mae X Y)) by assumption.
  apply sqrt_le_1_alt. unfold Rsqr, Spec.mae.
  apply mean_abs_sqr_le. now apply diffs_nonempty.
Qed.

End MeanInequality.

(** ** Below nine points *)

Lemma rmse_not_enough_points_any (F : Type) (FL : Float F) (X Y : list F)
    (out : list (line F)) :
  (List.length X < 9)%nat ->
  rmse X Y out = (Ok None, out ++ [Text (not_enough_points (len X))]).
Proof.
  intros H. unfold rmse.
  destruct (Z.ltb_spec (len X) 9) as [_|Hge]; [reflexivity|].
  unfold len in Hge. lia.
Qed.

(** ** The metric functions: what they return *)

Section MetricTheorems.
Local Open Scope R_scope.

(** C3, as the code has it.  On a first series of fewer than nine points
    [rmse] returns no triple and raises nothing: it prints that there are
    not enough points and returns [None], a normal return, whatever the
    floats and whatever the second series. *)
Theorem rmse_not_enough_points (F : Type) (FL : Float F) (X Y : list F)
    (out : list (line F)) :
  (List.length X < 9)%nat ->
  rmse X Y out = (Ok None, out ++ [Text (not_enough_points (len X))]).
Proof.
  intros H. unfold rmse.
  destruct (Z.ltb_spec (len X) 9) as [_|Hge].
  - reflexivity.
  - unfold len in Hge. lia.
Qed.

Lemma rmse_not_enough_points_witness :
  rmse (series [1; 2; 3]) (series [1; 2; 4]) []
  = (Ok None,
     [Text "Not enough points. 3 datapoints given. At least 9 is required"]).
Proof.
  apply (@rmse_not_enough_points xreal _ (series [1; 2; 3]) (series [1; 2; 4]) []).
  simpl. lia.
Defined.

(** C5.  On two series of reals of one length [N >= 1], [me] returns the pair
    [(mean(X-Y), 1.96*s_N/sqrt(N))], where [s_N = sqrt(sum((E - mean(E))^2)/N)]
    for [E = X-Y] is what [stdevp] computes from [E], its mean and [N]: the
    population standard deviation, with divisor [N]. *)
Theorem me_pair (X Y : list R) (out : list (line xreal)) :
  List.length X = List.length Y ->
  (1 <= List.length X)%nat ->
  let N := List.length X in
  let E := Spec.diffs X Y in
  let s_N := sqrt (Spec.Rsum (map (fun e => Rsqr (e - Spec.mean E)) E) / INR N) in
  me (series X) (series Y) out
  = (Ok (Fin (Spec.mean E), Fin (1.96 * s_N / sqrt (INR N))), out)
  /\ stdevp (series E) (Fin (Spec.mean E)) (Z.of_nat N) = Fin s_N.
Proof.
  intros HL HN N E s_N.
  assert (HE : List.length E = N) by (apply diffs_length; assumption).
  assert (Hs : s_N = Spec.s_N E) by (unfold Spec.s_N; now rewrite HE).
  split.
  - rewrite (me_series X Y HL out HN). unfold Spec.me_e, Spec.me.
    fold E N. now rewrite Hs.
  - rewrite Hs, <- HE. apply stdevp_series.
    intros E0. rewrite E0 in HE. simpl in HE. subst N. lia.
Qed.

Lemma me_pair_witness :
  exists m e, me (series [3; 5; 10]) (series [1; 2; 3]) [] = (Ok (Fin m, Fin e), []).
Proof.
  destruct (@me_pair [3; 5; 10] [1; 2; 3] [] eq_refl) as [E _].
  - simpl. lia.
  - eexists _, _. exact E.
Defined.

(** C8, in exact arithmetic.  On two series of reals of one length [N >= 9],
    computed without rounding, both [rmse] and [mae] return, and the RMSE
    point estimate is at least the MAE point estimate. *)
Theorem rmse_ge_mae (X Y : list R) (out : list (line xreal)) :
  List.length X = List.length Y ->
  (9 <= List.length X)%nat ->
  exists r le ue m le' ue',
    rmse (series X) (series Y) out = (Ok (Some (Fin r, le, ue)), out)
    /\ mae (series X) (series Y) out = (Ok (Fin m, le', ue'), out)
    /\ m <= r.
Proof.
  intros HL HN.
  eexists _, _, _, _, _, _. split; [|split].
  - apply rmse_series; assumption.
  - apply mae_series; [assumption | lia].
  - apply spec_mae_le_rmse; [assumption | lia].
Qed.

Lemma rmse_ge_mae_witness :
  exists r le ue m le' ue',
    rmse (series [1; 2; 3; 4; 5; 6; 7; 8; 9]) (series [0; 0; 0; 0; 0; 0; 0; 0; 0]) []
    = (Ok (Some (Fin r, le, ue)), [])
    /\ mae (series [1; 2; 3; 4; 5; 6; 7; 8; 9]) (series [0; 0; 0; 0; 0; 0; 0; 0; 0]) []
      = (Ok (Fin m, le', ue'), [])
    /\ m <= r.
Proof.
  apply (@rmse_ge_mae [1; 2; 3; 4; 5; 6; 7; 8; 9] [0; 0; 0; 0; 0; 0; 0; 0; 0] [] eq_refl).
  simpl. lia.
Defined.

End MetricTheorems.

(** ** A candidate at a constant distance from the reference *)

Section ConstantShift.
Local Open Scope R_scope.

Lemma shifted_length c l : List.length (Scenario.shifted c l) = List.length l.
Proof. apply length_map. Qed.

Lemma diffs_shifted (c : R) (l : list R) :
  Spec.diffs (Scenario.shifted c l) l = map (fun _ => c) l.
Proof.
  unfold Scenario.shifted.
  induction l as [|x l IH]; cbn [map Spec.diffs]; [reflexivity|].
  rewrite IH. f_equal. ring.
Qed.

Lemma diffs_self (l : list R) : Spec.diffs l l = map (fun _ => 0) l.
Proof.
  induction l as [|x l IH]; cbn [map Spec.diffs]; [reflexivity|].
  rewrite IH. f_equal. ring.
Qed.

Lemma Rsum_const (A : Type) (v : R) (l : list A) :
  Spec.Rsum (map (fun _ => v) l) = INR (List.length l) * v.
Proof.
  induction l as [|x l IH].
  - simpl. ring.
  - cbn [map Spec.Rsum fold_right List.length].
    fold (Spec.Rsum (map (fun _ => v) l)). rewrite IH, S_INR. ring.
Qed.

Lemma mean_const (A : Type) (v : R) (l : list A) :
  l <> [] -> Spec.mean (map (fun _ => v) l) = v.
Proof.
  intros H. unfold Spec.mean. rewrite Rsum_const, length_map.
  field. apply not_0_INR. destruct l; simpl; congruence.
Qed.

Variables (c : R) (X Y : list R).
Hypothesis constant_error : Spec.diffs X Y = map (fun _ => c) Y.
Hypothesis nonempty : Y <> [].

Lemma rmse_constant_error : Spec.rmse X Y = Rabs c.
Proof.
  unfold Spec.rmse. rewrite constant_error, map_map, mean_const by assumption.
  apply sqrt_Rsqr_abs.
Qed.

Lemma mae_constant_error : Spec.mae X Y = Rabs c.
Proof.
  unfold Spec.mae. now rewrite constant_error, map_map, mean_const.
Qed.

Lemma me_constant_error : Spec.me X Y = c.
Proof. unfold Spec.me. now rewrite constant_error, mean_const. Qed.

Lemma s_N_constant_error : Spec.s_N (Spec.diffs X Y) = 0.
Proof.
  unfold Spec.s_N. rewrite constant_error, mean_const by assumption.
  rewrite map_map, Rsum_const.
  replace (INR (List.length Y) * Rsqr (c - c)) with 0 by (unfold Rsqr; ring).
  unfold Rdiv. rewrite Rmult_0_l. apply sqrt_0.
Qed.

Lemma me_e_constant_error : Spec.me_e X Y = 0.
Proof.
  unfold Spec.me_e. rewrite s_N_constant_error. unfold Rdiv. ring.
Qed.

End ConstantShift.

(** ** The interval on ten samples *)

Section TenSamples.
Local Open Scope R_scope.

Lemma sqrt2_bounds : 1.4142 < sqrt 2 < 1.4143.
Proof.
  pose proof sqrt2_sq as H. pose proof (sqrt_pos 2) as H0. split; nra.
Qed.

Lemma k_10 : Spec.k 10 = 1.96 * sqrt 2 / 3.
Proof.
  unfold Spec.k. replace (INR 10 - 1) with (3 * 3) by (simpl; lra).
  rewrite sqrt_square by lra. reflexivity.
Qed.

Lemma k_10_bounds : 0.9239 < Spec.k 10 < 0.9241.
Proof. rewrite k_10. pose proof sqrt2_bounds. lra. Qed.

Lemma lower_factor_10 : 0.724 < 1 - sqrt (1 - Spec.k 10) < 0.725.
Proof.
  pose proof k_10_bounds as Hk.
  pose proof (sqrt_pos (1 - Spec.k 10)) as H0.
  pose proof (sqrt_sqrt (1 - Spec.k 10)) as Hs.
  split; nra.
Qed.

Lemma upper_factor_10 : 0.387 < sqrt (1 + Spec.k 10) - 1 < 0.388.
Proof.
  pose proof k_10_bounds as Hk.
  pose proof (sqrt_pos (1 + Spec.k 10)) as H0.
  pose proof (sqrt_sqrt (1 + Spec.k 10)) as Hs.
  split; nra.
Qed.

End TenSamples.

(** ** The metrics of a candidate at a constant distance *)

Section ConstantErrorRuns.
Local Open Scope R_scope.
Variables (c : R) (X Y : list R).
Hypothesis constant_error : Spec.diffs X Y = map (fun _ => c) Y.
Hypothesis same_length : List.length X = List.length Y.
Hypothesis enough : (9 <= List.length X)%nat.

Let n := List.length X.

Lemma Y_nonempty : Y <> [].
Proof. intros E. rewrite E in same_length. simpl in same_length. lia. Qed.

Lemma rmse_constant_run (out : list (line xreal)) :
  rmse (series X) (series Y) out
  = (Ok (Some (Fin (Rabs c),
               Fin (Rabs c * (1 - sqrt (1 - Spec.k n))),
               Fin (Rabs c * (sqrt (1 + Spec.k n) - 1)))), out).
Proof.
  rewrite (rmse_series X Y same_length out enough).
  rewrite (@rmse_constant_error c X Y constant_error Y_nonempty). reflexivity.
Qed.

Lemma mae_constant_run (out : list (line xreal)) :
  mae (series X) (series Y) out
  = (Ok (Fin (Rabs c),
         Fin (Rabs c * (1 - sqrt (1 - Spec.k n))),
         Fin (Rabs c * (sqrt (1 + Spec.k n) - 1))), out).
Proof.
  rewrite (mae_series X Y same_length out) by lia.
  rewrite lower_factor_code by assumption.
  rewrite (@mae_constant_error c X Y constant_error Y_nonempty). reflexivity.
Qed.

Lemma me_constant_run (out : list (line xreal)) :
  me (series X) (series Y) out = (Ok (Fin c, Fin 0), out).
Proof.
  rewrite (me_series X Y same_length out) by lia.
  rewrite (@me_constant_error c X Y constant_error Y_nonempty).
  rewrite (@me_e_constant_error c X Y constant_error Y_nonempty). reflexivity.
Qed.

End ConstantErrorRuns.

(** ** First scenario: candidate A is the reference plus one *)

Section ScenarioA.
Local Open Scope R_scope.

Lemma A_error : Spec.diffs Scenario.A Scenario.ref = map (fun _ => 1) Scenario.ref.
Proof. apply diffs_shifted. Qed.

Lemma A_length : List.length Scenario.A = List.length Scenario.ref.
Proof. apply shifted_length. Qed.

Lemma A_enough : (9 <= List.length Scenario.A)%nat.
Proof. rewrite A_length. simpl. lia. Qed.

Lemma A_samples : List.length Scenario.A = 10%nat.
Proof. rewrite A_length. reflexivity. Qed.

Lemma A_rmse :
  rmse (series Scenario.A) (series Scenario.ref) []
  = (Ok (Some (Fin 1, Fin (1 - sqrt (1 - Spec.k 10)), Fin (sqrt (1 + Spec.k 10) - 1))), []).
Proof.
  rewrite (@rmse_constant_run 1 _ _ A_error A_length A_enough), A_samples, Rabs_R1.
  now rewrite !Rmult_1_l.
Qed.

Lemma A_mae :
  mae (series Scenario.A) (series Scenario.ref) []
  = (Ok (Fin 1, Fin (1 - sqrt (1 - Spec.k 10)), Fin (sqrt (1 + Spec.k 10) - 1)), []).
Proof.
  rewrite (@mae_constant_run 1 _ _ A_error A_length A_enough), A_samples, Rabs_R1.
  now rewrite !Rmult_1_l.
Qed.

Lemma A_me :
  me (series Scenario.A) (series Scenario.ref) [] = (Ok (Fin 1, Fin 0), []).
Proof. exact (@me_constant_run 1 _ _ A_error A_length A_enough []). Qed.

(** C9, as the code has it.  With the reference [1..10] and candidate A the
    reference plus one, [rmse] and [mae] both return [(1, le, ue)] with
    [le = 1 - sqrt(1 - 1.96*sqrt(2)/3)], between 0.724 and 0.725, and
    [ue = sqrt(1 + 1.96*sqrt(2)/3) - 1], between 0.387 and 0.388; [me]
    returns [(1, 0)]: the residuals are constant, so the population standard
    deviation and with it the half-width are zero, while the lower error of
    [rmse] and [mae] is a fixed fraction of the point estimate. *)
Theorem scenario_A_metrics :
  let le := 1 - sqrt (1 - 1.96 * sqrt 2 / 3) in
  let ue := sqrt (1 + 1.96 * sqrt 2 / 3) - 1 in
  rmse (series Scenario.A) (series Scenario.ref) []
  = (Ok (Some (Fin 1, Fin le, Fin ue)), [])
  /\ mae (series Scenario.A) (series Scenario.ref) [] = (Ok (Fin 1, Fin le, Fin ue), [])
  /\ me (series Scenario.A) (series Scenario.ref) [] = (Ok (Fin 1, Fin 0), [])
  /\ 0.724 < le < 0.725 /\ 0.387 < ue < 0.388.
Proof.
  intros le ue. subst le ue. rewrite <- k_10.
  repeat split;
    try apply A_rmse; try apply A_mae; try apply A_me;
    try apply lower_factor_10; apply upper_factor_10.
Qed.

(** C9, as the specification states it, does not hold: the lower errors are
    not zero and the half-width of [me] is not positive. *)
Lemma scenario_A_not_as_stated :
  ~ (exists ue ue' e,
        rmse (series Scenario.A) (series Scenario.ref) []
        = (Ok (Some (Fin 1, Fin 0, Fin ue)), []) /\ 0 < ue
        /\ mae (series Scenario.A) (series Scenario.ref) []
           = (Ok (Fin 1, Fin 0, Fin ue'), []) /\ 0 < ue'
        /\ me (series Scenario.A) (series Scenario.ref) [] = (Ok (Fin 1, Fin e), [])
        /\ 0 < e).
Proof.
  intros (ue & ue' & e & Hr & _ & _ & _ & Hme & He).
  rewrite A_me in Hme. injection Hme as Hme. lra.
Qed.

(** Each part on its own: the lower error of [rmse] is not zero. *)
Lemma scenario_A_rmse_lower_not_zero :
  forall ue, rmse (series Scenario.A) (series Scenario.ref) []
             <> (Ok (Some (Fin 1, Fin 0, Fin ue)), []).
Proof.
  intros ue H. rewrite A_rmse in H. injection H as Hle _.
  pose proof lower_factor_10. lra.
Qed.

End ScenarioA.

(** ** Loops and lookups, over any float *)

Section Loops.
Context {F : Type} {FL : Float F}.

Lemma field_In (data : list (string * list F)) (k : string) (v : list F) :
  NoDup (map fst data) -> In (k, v) data -> field k data = Ok v.
Proof.
  induction data as [|[k0 v0] data IH]; simpl; intros ND Hin; [contradiction|].
  inversion ND as [|? ? Hnot ND']; subst.
  destruct Hin as [E|Hin].
  - injection E as -> ->. now rewrite String.eqb_refl.
  - destruct (String.eqb_spec k0 k) as [->|_].
    + exfalso. apply Hnot. change k with (fst (k, v)). now apply in_map.
    + now apply IH.
Qed.

Lemma collect_fields (data cols : list (string * list F)) (out : list (line F)) :
  (forall p, In p cols -> field (fst p) data = Ok (snd p)) ->
  collect (map fst cols) (fun m => lift (field m data)) out = (Ok (map snd cols), out).
Proof.
  induction cols as [|p cols IH]; intros H; simpl; [reflexivity|].
  unfold bind, lift at 1. rewrite (H p) by now left.
  rewrite IH by (intros q Hq; apply H; now right). reflexivity.
Qed.

Lemma for_each_rows (A : Type) (xs : list A) (body : A -> M F unit)
    (f : A -> list (line F)) :
  (forall x out, In x xs -> body x out = (Ok tt, out ++ f x)) ->
  forall out, for_each xs body out = (Ok tt, out ++ flat_map f xs).
Proof.
  induction xs as [|x xs IH]; intros H out; simpl.
  - unfold ret. now rewrite app_nil_r.
  - unfold bind. rewrite H by now left.
    rewrite IH by (intros y o Hy; apply H; now right).
    now rewrite <- app_assoc.
Qed.

Lemma index_nth (A : Type) (l : list A) (i : nat) (a : A) :
  nth_error l i = Some a -> index l i = Ok a.
Proof. intros H. unfold index. now rewrite H. Qed.

Lemma flat_map_single (A B : Type) (f : A -> B) (l : list A) :
  flat_map (fun x => [f x]) l = map f l.
Proof. induction l as [|x l IH]; simpl; [reflexivity | now rewrite IH]. Qed.

Lemma map_flat_map (A B C : Type) (f : B -> C) (g : A -> list B) (l : list A) :
  map f (flat_map g l) = flat_map (fun x => map f (g x)) l.
Proof.
  induction l as [|x l IH]; simpl; [reflexivity|].
  now rewrite map_app, IH.
Qed.

End Loops.

(** The pairs are those with [i < j < nm]. *)
Lemma in_pairs (nm i j : nat) : In (i, j) (pairs nm) <-> (i < j < nm)%nat.
Proof.
  unfold pairs. rewrite in_flat_map. split.
  - intros (i' & Hi & Hj). apply in_map_iff in Hj as (j' & E & Hj).
    injection E as -> ->. apply in_seq in Hi, Hj. lia.
  - intros H. exists i. split; [apply in_seq; lia|].
    apply in_map, in_seq. lia.
Qed.

(** ** The driver on a table of real series *)

Section IdealDriver.
Local Open Scope R_scope.
Variable ref : list R.
Hypothesis enough : (9 <= List.length ref)%nat.

Lemma ref_nonempty : ref <> [].
Proof. intros E. rewrite E in enough. simpl in enough. lia. Qed.

Lemma null_series :
  map (fun _ => np_mean (series ref)) (series ref) = series (null_of ref).
Proof.
  rewrite np_mean_series by exact ref_nonempty.
  unfold series, null_of. now rewrite !map_map.
Qed.

Lemma null_length : List.length (null_of ref) = List.length ref.
Proof. apply length_map. Qed.

(** One turn of the first loop. *)
Lemma metrics_step_series (md : list (list xreal)) (i : nat) (d : list R)
    (s : stats xreal) (out : list (line xreal)) :
  nth_error md i = Some (series d) ->
  List.length d = List.length ref ->
  metrics_step md (series ref) i s out
  = (Ok {| rmse_list := rmse_list s ++ [Fin (Spec.rmse d ref)];
           lower_error := lower_error s ++ [Fin (Spec.lower (Spec.rmse d ref) (List.length d))];
           upper_error := upper_error s ++ [Fin (Spec.upper (Spec.rmse d ref) (List.length d))];
           mae_list := mae_list s ++ [Fin (Spec.mae d ref)];
           mae_lower := mae_lower s ++ [Fin (Spec.lower (Spec.mae d ref) (List.length d))];
           mae_upper := mae_upper s ++ [Fin (Spec.upper (Spec.mae d ref) (List.length d))];
           me_list := me_list s ++ [Fin (Spec.me d ref)];
           me_lower := me_lower s ++ [Fin (Spec.me_e d ref)];
           me_upper := me_upper s ++ [Fin (Spec.me_e d ref)] |}, out).
Proof.
  intros Hi Hd. assert (Hn : (9 <= List.length d)%nat) by lia.
  unfold metrics_step, bind. unfold lift at 1. rewrite (index_nth _ _ Hi).
  rewrite (rmse_series d ref Hd out Hn). cbn [lift unpack3].
  rewrite (mae_series d ref Hd out) by lia.
  rewrite lower_factor_code by assumption.
  rewrite (me_series d ref Hd out) by lia.
  reflexivity.
Qed.

Lemma stats_of_snoc (Ms : list (list R)) (d : list R) :
  stats_of ref (Ms ++ [d])
  = {| rmse_list := rmse_list (stats_of ref Ms) ++ [Fin (Spec.rmse d ref)];
       lower_error := lower_error (stats_of ref Ms) ++ [Fin (Spec.lower (Spec.rmse d ref) (List.length d))];
       upper_error := upper_error (stats_of ref Ms) ++ [Fin (Spec.upper (Spec.rmse d ref) (List.length d))];
       mae_list := mae_list (stats_of ref Ms) ++ [Fin (Spec.mae d ref)];
       mae_lower := mae_lower (stats_of ref Ms) ++ [Fin (Spec.lower (Spec.mae d ref) (List.length d))];
       mae_upper := mae_upper (stats_of ref Ms) ++ [Fin (Spec.upper (Spec.mae d ref) (List.length d))];
       me_list := me_list (stats_of ref Ms) ++ [Fin (Spec.me d ref)];
       me_lower := me_lower (stats_of ref Ms) ++ [Fin (Spec.me_e d ref)];
       me_upper := me_upper (stats_of ref Ms) ++ [Fin (Spec.me_e d ref)] |}.
Proof. unfold stats_of. cbn [rmse_list lower_error upper_error mae_list mae_lower
  mae_upper me_list me_lower me_upper]. now rewrite !map_app. Qed.

(** The first loop, by induction on the methods still to do. *)
Lemma metrics_loop (rest done : list (list R)) (out : list (line xreal)) :
  Forall (fun d => List.length d = List.length ref) rest ->
  for_fold (seq (List.length done) (List.length rest))
           (metrics_step (map series (done ++ rest)) (series ref))
           (stats_of ref done) out
  = (Ok (stats_of ref (done ++ rest)), out).
Proof.
  revert done. induction rest as [|d rest IH]; intros done Hall.
  - simpl. now rewrite app_nil_r.
  - inversion Hall as [|? ? Hd Hrest]; subst.
    cbn [List.length seq for_fold]. unfold bind.
    rewrite (@metrics_step_series _ _ d).
    + rewrite <- stats_of_snoc.
      replace (done ++ d :: rest) with ((done ++ [d]) ++ rest)
        by (now rewrite <- app_assoc).
      replace (S (List.length done)) with (List.length (done ++ [d]))
        by (rewrite length_app; simpl; lia).
      now apply IH.
    + rewrite map_app, nth_error_app2 by (rewrite length_map; lia).
      rewrite length_map, Nat.sub_diag. reflexivity.
    + assumption.
Qed.

Lemma corrcoef_series (x y : list R) :
  List.length x = List.length y -> corrcoef (series x) (series y) = Ok (corr x y).
Proof.
  intros H. unfold corr, corrcoef. rewrite !series_length, H, Nat.eqb_refl.
  reflexivity.
Qed.

(** One turn of the inner loop of the pairwise table. *)
Lemma pair_step_series (reg : list (string * list R)) (i j : nat)
    (out : list (line xreal)) :
  Forall (fun p => List.length (snd p) = List.length ref) reg ->
  (i < List.length reg)%nat -> (j < List.length reg)%nat ->
  pair_step (map fst reg) (map series (map snd reg)) (stats_of ref (map snd reg)) i j out
  = (Ok tt, out ++ [row_of ref (nth i reg (EmptyString, [])) (nth j reg (EmptyString, []))]).
Proof.
  intros Hall Hi Hj.
  pose proof (nth_error_nth' reg (EmptyString, []) Hi) as Ei.
  pose proof (nth_error_nth' reg (EmptyString, []) Hj) as Ej.
  assert (Li : List.length (snd (nth i reg (EmptyString, []))) = List.length ref)
    by (rewrite Forall_forall in Hall; apply Hall, nth_In, Hi).
  assert (Lj : List.length (snd (nth j reg (EmptyString, []))) = List.length ref)
    by (rewrite Forall_forall in Hall; apply Hall, nth_In, Hj).
  destruct (nth i reg (EmptyString, [])) as [m_i d_i].
  destruct (nth j reg (EmptyString, [])) as [m_j d_j].
  cbn [snd] in Li, Lj.
  unfold pair_step, bind, lift, stats_of.
  cbn [rmse_list lower_error upper_error].
  rewrite !(index_nth _ _ (map_nth_error _ _ _ Ei)).
  rewrite !(index_nth _ _ (map_nth_error _ _ _ Ej)).
  rewrite !map_map.
  rewrite !(index_nth _ _ (map_nth_error _ _ _ Ei)).
  rewrite !(index_nth _ _ (map_nth_error _ _ _ Ej)).
  cbn [fst snd]. rewrite corrcoef_series by congruence.
  unfold row_of, pick_bounds.
  destruct (Fin (Spec.rmse d_j ref) <? Fin (Spec.rmse d_i ref))%flt; reflexivity.
Qed.

End IdealDriver.

Section IdealMain.
Local Open Scope R_scope.
Variables (ref : list R) (cols : list (string * list R)).
Hypothesis enough : (9 <= List.length ref)%nat.
Hypothesis names_differ : NoDup ("REF"%string :: map fst cols).
Hypothesis same_length :
  Forall (fun p => List.length (snd p) = List.length ref) cols.

Lemma registry_same_length :
  Forall (fun p => List.length (snd p) = List.length ref) (registry ref cols).
Proof.
  unfold registry. apply Forall_app. split; [assumption|].
  constructor; [apply null_length | constructor].
Qed.

Lemma table_names : map fst (table_of ref cols) = "REF"%string :: map fst cols.
Proof. unfold table_of. cbn [map fst]. now rewrite map_map. Qed.

Lemma table_fields (out : list (line xreal)) :
  collect (map fst cols) (fun m => lift (field m (table_of ref cols))) out
  = (Ok (map series (map snd cols)), out).
Proof.
  pose proof (collect_fields (table_of ref cols)
                (map (fun p => (fst p, series (snd p))) cols) out) as H.
  rewrite !map_map in H. cbn [fst snd] in H. rewrite map_map. apply H.
  intros [k v] Hin. apply field_In.
  - now rewrite table_names.
  - right. exact Hin.
Qed.

(** The whole run: the nine lists and everything printed. *)
Lemma main_series (out : list (line xreal)) :
  main (table_of ref cols) out
  = (Ok (stats_of ref (map snd (registry ref cols))),
     out ++ Text header :: rows_of ref (registry ref cols)).
Proof.
  unfold main, bind. unfold lift at 1.
  assert (Hf : field "REF" (table_of ref cols) = Ok (series ref)) by reflexivity.
  rewrite Hf, table_names. cbn [tl]. rewrite table_fields.
  rewrite (@null_series ref enough).
  set (reg := registry ref cols).
  assert (Em : map fst cols ++ ["null"%string] = map fst reg)
    by (unfold reg, registry; now rewrite map_app).
  assert (Ed : map series (map snd cols) ++ [series (null_of ref)]
               = map series (map snd reg))
    by (unfold reg, registry; now rewrite !map_app).
  assert (En : (List.length (map fst cols) + 1)%nat = List.length reg)
    by (unfold reg, registry; now rewrite length_map, length_app).
  rewrite Em, Ed, En.
  pose proof (@metrics_loop ref enough (map snd reg) [] out) as Hloop.
  cbn [List.length app] in Hloop. rewrite length_map in Hloop.
  change (stats_of ref []) with (@no_stats xreal) in Hloop.
  rewrite Hloop
    by (apply Forall_map; exact registry_same_length).
  unfold print at 1.
  rewrite (for_each_rows
             (seq 0 (List.length reg))
             (fun i => for_each (seq (i + 1) (List.length reg - (i + 1)))
                         (fun j => pair_step (map fst reg) (map series (map snd reg))
                                     (stats_of ref (map snd reg)) i j))
             (fun i => map (fun j => row_of ref (nth i reg (EmptyString, []))
                                                 (nth j reg (EmptyString, [])))
                           (seq (i + 1) (List.length reg - (i + 1))))).
  - unfold ret. f_equal. rewrite <- app_assoc. cbn [app]. do 2 f_equal.
    unfold rows_of, pairs. rewrite map_flat_map.
    apply flat_map_ext. intros i. now rewrite map_map.
  - intros i o Hi. apply in_seq in Hi.
    rewrite (for_each_rows _ _
               (fun j => [row_of ref (nth i reg (EmptyString, []))
                                     (nth j reg (EmptyString, []))])).
    + now rewrite flat_map_single.
    + intros j o' Hj. apply in_seq in Hj.
      apply pair_step_series; [exact registry_same_length | lia | lia].
Qed.

End IdealMain.

(** ** The compatible error and the verdict *)

Section CompatibleError.
Local Open Scope R_scope.

Lemma clip_range (c : xreal) :
  clip c (Fin (-1)) (Fin 1) = NaN
  \/ exists rho, clip c (Fin (-1)) (Fin 1) = Fin rho /\ -1 <= rho <= 1.
Proof.
  unfold clip. cbn [fltb xreal_float].
  destruct c as [v| | |]; cbn [XReal.ltb].
  - destruct (Rlt_dec v (-1)); [right; exists (-1); split; [reflexivity | lra]|].
    destruct (Rlt_dec 1 v); [right; exists 1; split; [reflexivity | lra]|].
    right. exists v. split; [reflexivity | lra].
  - right. exists 1. split; [reflexivity | lra].
  - right. exists (-1). split; [reflexivity | lra].
  - now left.
Qed.

Lemma corr_range (x y : list R) :
  corr x y = NaN \/ exists rho, corr x y = Fin rho /\ -1 <= rho <= 1.
Proof.
  unfold corr, corrcoef.
  destruct (Nat.eqb _ _); [|now left].
  apply clip_range.
Qed.

Lemma radicand_nonneg (u l rho : R) :
  -1 <= rho <= 1 -> 0 <= u * u + l * l - 2 * rho * u * l.
Proof.
  intros H. pose proof (Rle_0_sqr (u - l)) as H1.
  pose proof (Rle_0_sqr (u + l)) as H2. unfold Rsqr in H1, H2.
  destruct (Rle_dec 0 (u * l)); nra.
Qed.

Lemma comp_error_fin (lower upper rho : R) :
  -1 <= rho <= 1 ->
  comp_error_of (Fin lower) (Fin upper) (Fin rho)
  = Fin (sqrt (upper * upper + lower * lower - 2 * rho * upper * lower)).
Proof.
  intros H. unfold comp_error_of, sq.
  cbn [fadd fsub fmul fsqrt of_int xreal_float XReal.add XReal.sub XReal.mul XReal.opp].
  rewrite sqrt_fin by (pose proof (radicand_nonneg upper lower H); lra).
  reflexivity.
Qed.

(** A NaN correlation makes the compatible error NaN, whatever the bounds. *)
Lemma comp_error_nan (lower upper : xreal) : comp_error_of lower upper NaN = NaN.
Proof.
  unfold comp_error_of, sq.
  cbn [fadd fsub fmul fsqrt of_int xreal_float].
  destruct upper, lower; reflexivity.
Qed.

(** Nothing is less than NaN: the verdict is then [False]. *)
Lemma significance_nan (a b : xreal) : significance_of a b NaN = false.
Proof.
  unfold significance_of. cbn [fltb fabs fsub xreal_float].
  destruct (XReal.abs (XReal.sub a b)); reflexivity.
Qed.

Lemma significance_fin (ri rj c : R) :
  significance_of (Fin ri) (Fin rj) (Fin c) = true <-> Rabs (ri - rj) < c.
Proof.
  unfold significance_of.
  cbn [fltb fabs fsub xreal_float XReal.sub XReal.add XReal.opp XReal.abs].
  apply ltb_fin.
Qed.

Lemma pick_bounds_fin (ri lei uei rj lej uej : R) :
  (ri = rj -> lei = lej /\ uei = uej) ->
  exists lower upper,
    pick_bounds (Fin ri) (Fin lei) (Fin uei) (Fin rj) (Fin lej) (Fin uej)
    = (Fin lower, Fin upper)
    /\ (rj <= ri -> lower = lei /\ upper = uej)
    /\ (ri <= rj -> lower = lej /\ upper = uei).
Proof.
  intros Htie. unfold pick_bounds. cbn [fltb xreal_float XReal.ltb].
  destruct (Rlt_dec rj ri) as [Hlt|Hge].
  - exists lei, uej. repeat split; try reflexivity; intros; exfalso; lra.
  - exists lej, uei. split; [reflexivity|]. split; [|easy].
    intros Hle. assert (E : ri = rj) by lra. destruct (Htie E). now split.
Qed.

End CompatibleError.

(** ** The printed rows are the rows of the specification *)

Section RowsAsClaimed.
Local Open Scope R_scope.
Variable ref : list R.
Hypothesis enough : (9 <= List.length ref)%nat.

Lemma row_of_claimed (mi mj : string * list R) :
  List.length (snd mi) = List.length ref ->
  List.length (snd mj) = List.length ref ->
  claimed_row ref mi mj (row_of ref mi mj).
Proof.
  destruct mi as [m_i d_i], mj as [m_j d_j]. cbn [fst snd]. intros Li Lj.
  set (ri := Spec.rmse d_i ref). set (rj := Spec.rmse d_j ref).
  set (n := List.length ref).
  destruct (@pick_bounds_fin ri (Spec.lower ri n) (Spec.upper ri n)
                             rj (Spec.lower rj n) (Spec.upper rj n))
    as (lower & upper & Epick & Hi & Hj).
  { intros E. rewrite E. now split. }
  unfold claimed_row. cbn [fst snd].
  exists ri, (Spec.lower ri n), (Spec.upper ri n),
         rj, (Spec.lower rj n), (Spec.upper rj n),
         (corr d_i d_j), lower, upper,
         (comp_error_of (Fin lower) (Fin upper) (corr d_i d_j)),
         (significance_of (Fin ri) (Fin rj)
            (comp_error_of (Fin lower) (Fin upper) (corr d_i d_j))).
  split; [|split; [|split; [|split; [|split; [|split]]]]].
  - rewrite (rmse_series d_i ref Li []) by lia. subst ri n. now rewrite Li.
  - rewrite (rmse_series d_j ref Lj []) by lia. subst rj n. now rewrite Lj.
  - apply corrcoef_series. congruence.
  - exact Hi.
  - exact Hj.
  - destruct (corr_range d_i d_j) as [E | (rho & E & Hrho)]; rewrite E.
    + right. split; [reflexivity|]. split.
      * apply comp_error_nan.
      * rewrite comp_error_nan. apply significance_nan.
    + left. exists rho. split; [reflexivity|]. split; [assumption|].
      rewrite (comp_error_fin _ _ Hrho). split; [reflexivity|].
      apply significance_fin.
  - unfold row_of. fold ri rj. rewrite Li, Lj. fold n. rewrite Epick. reflexivity.
Qed.

Lemma Forall2_map_intro (A B : Type) (P : A -> B -> Prop) (g : A -> B) (l : list A) :
  (forall x, In x l -> P x (g x)) -> Forall2 P l (map g l).
Proof.
  induction l as [|x l IH]; intros H; simpl; constructor.
  - apply H. now left.
  - apply IH. intros y Hy. apply H. now right.
Qed.

Lemma rows_of_claimed (reg : list (string * list R)) :
  Forall (fun p => List.length (snd p) = List.length ref) reg ->
  Forall2 (fun p row =>
             exists mi mj,
               nth_error reg (fst p) = Some mi /\ nth_error reg (snd p) = Some mj
               /\ claimed_row ref mi mj row)
          (pairs (List.length reg)) (rows_of ref reg).
Proof.
  intros Hall. unfold rows_of. apply Forall2_map_intro.
  intros [i j] Hin. apply in_pairs in Hin. cbn [fst snd].
  assert (Hi : (i < List.length reg)%nat) by lia.
  assert (Hj : (j < List.length reg)%nat) by lia.
  exists (nth i reg (EmptyString, [])), (nth j reg (EmptyString, [])).
  rewrite Forall_forall in Hall.
  split; [now apply nth_error_nth'|]. split; [now apply nth_error_nth'|].
  apply row_of_claimed; apply Hall, nth_In; assumption.
Qed.

End RowsAsClaimed.

Section PairwiseTheorems.
Local Open Scope R_scope.

(** C1.  On a table of a reference and candidate series of reals, all of one
    length [N >= 9] and with distinct names, the driver completes and prints,
    after the header, one row for every pair [(i, j)] of registered methods
    (the candidates, then the null baseline) with [i] before [j], in registry
    order.  The row of a pair is the row of the specification: with the RMSE
    triples of the two methods and the correlation [r] of their series,
    [lower] is the lower error of the method with the larger RMSE and [upper]
    the upper error of the other, the compatible error is
    [sqrt(upper^2 + lower^2 - 2*r*upper*lower)], and the last column, headed
    "same?", is [True] (not statistically significant) exactly when
    [|rmse_i - rmse_j|] is less than the compatible error. *)
Theorem pairwise_rule (ref : list R) (cols : list (string * list R))
    (out : list (line xreal)) :
  (9 <= List.length ref)%nat ->
  NoDup ("REF"%string :: map fst cols) ->
  Forall (fun p => List.length (snd p) = List.length ref) cols ->
  let reg := registry ref cols in
  let nm := List.length reg in
  exists s rows,
    main (table_of ref cols) out = (Ok s, out ++ Text header :: rows)
    /\ Forall2 (fun p row =>
                  exists mi mj,
                    nth_error reg (fst p) = Some mi /\ nth_error reg (snd p) = Some mj
                    /\ claimed_row ref mi mj row)
               (pairs nm) rows
    /\ (forall i j, In (i, j) (pairs nm) <-> (i < j < nm)%nat).
Proof.
  intros Hn Hnames Hlen reg nm.
  exists (stats_of ref (map snd reg)), (rows_of ref reg).
  split; [now apply main_series|]. split.
  - apply rows_of_claimed; [assumption | now apply registry_same_length].
  - intros i j. apply in_pairs.
Qed.

End PairwiseTheorems.

(** ** The correlation of two series of reals *)

Section Correlation.
Local Open Scope R_scope.

Lemma centered_series (x : list R) :
  x <> [] ->
  map (fun v => (v - np_mean (series x))%flt) (series x) = series (Spec.centered x).
Proof.
  intros H. rewrite np_mean_series by assumption.
  unfold series, Spec.centered. now rewrite !map_map.
Qed.

Lemma fold_add_products (a b : list R) (acc : R) :
  fold_left fadd (zip_with fmul (series a) (series b)) (Fin acc)
  = Fin (acc + Spec.dot a b).
Proof.
  revert b acc. induction a as [|u a IH]; intros [|v b] acc;
    cbn [series map zip_with fold_left Spec.dot];
    try (apply f_equal; lra).
  change (fold_left fadd (zip_with fmul (series a) (series b)) (Fin (acc + u * v))
          = Fin (acc + (u * v + Spec.dot a b))).
  rewrite IH. apply f_equal. lra.
Qed.

Lemma dot_series (a b : list R) : dot (series a) (series b) = Fin (Spec.dot a b).
Proof.
  unfold dot, np_sum. cbn [of_int xreal_float].
  rewrite fold_add_products. apply f_equal. lra.
Qed.

(** The correlation of two series of one length [n >= 2], before clipping. *)
Lemma corr_series (x y : list R) :
  List.length x = List.length y ->
  (2 <= List.length x)%nat ->
  let k := 1 / (INR (List.length x) - 1) in
  corr x y
  = clip (Fin (Spec.dot (Spec.centered x) (Spec.centered y) * k)
          / fsqrt (Fin (Spec.dot (Spec.centered x) (Spec.centered x) * k))
          / fsqrt (Fin (Spec.dot (Spec.centered y) (Spec.centered y) * k)))%flt
         (Fin (-1)) (Fin 1).
Proof.
  intros HL Hn k. unfold corr, corrcoef.
  rewrite !series_length, HL, Nat.eqb_refl.
  assert (Hx : x <> []) by (intros E; rewrite E in Hn; simpl in Hn; lia).
  assert (Hy : y <> []) by (intros E; rewrite E in HL; simpl in HL; lia).
  rewrite (centered_series Hx), (centered_series Hy), !dot_series.
  rewrite len_series.
  destruct (Z.leb_spec (Z.of_nat (List.length x) - 1) 0) as [Hle|_]; [lia|].
  cbn [of_int xreal_float]. rewrite minus_IZR, IZR_len.
  assert (Hp : 0 < INR (List.length x) - 1)
    by (apply le_INR in Hn; simpl in Hn; lra).
  cbn [fdiv]. rewrite div_fin by lra.
  reflexivity.
Qed.

Lemma centered_const (A : Type) (m : R) (l : list A) :
  l <> [] -> Spec.centered (map (fun _ => m) l) = map (fun _ => 0) l.
Proof.
  intros H. unfold Spec.centered. rewrite mean_const by assumption.
  rewrite map_map. apply map_ext. intros _. ring.
Qed.

Lemma dot_zero_r (A : Type) (a : list R) (l : list A) :
  Spec.dot a (map (fun _ => 0) l) = 0.
Proof.
  revert a. induction l as [|x l IH]; intros [|u a]; cbn [map Spec.dot]; try reflexivity.
  rewrite IH. ring.
Qed.

Lemma dot_zero_l (A : Type) (b : list R) (l : list A) :
  Spec.dot (map (fun _ => 0) l) b = 0.
Proof.
  revert b. induction l as [|x l IH]; intros [|v b]; cbn [map Spec.dot]; try reflexivity.
  rewrite IH. ring.
Qed.

Lemma div_by_zero_of_zero (q : xreal) :
  q = Fin 0 \/ q = NaN -> XReal.div q (Fin 0) = NaN.
Proof.
  intros [-> | ->]; [|reflexivity].
  cbn [XReal.div]. now rewrite !is0_true.
Qed.

(** The correlation with a constant series is NaN: its variance is zero. *)
Lemma corr_constant (x : list R) (m : R) (A : Type) (l : list A) :
  List.length x = List.length l ->
  (2 <= List.length x)%nat ->
  corr x (map (fun _ => m) l) = NaN.
Proof.
  intros HL Hn.
  assert (Hl : l <> []) by (intros E; rewrite E in HL; simpl in HL; lia).
  rewrite corr_series by (rewrite ?length_map; assumption).
  rewrite (centered_const m Hl), dot_zero_r, dot_zero_l.
  rewrite !Rmult_0_l.
  cbn [fsqrt fdiv xreal_float].
  rewrite (sqrt_fin (a:=0)) by lra. rewrite sqrt_0.
  rewrite div_by_zero_of_zero; [reflexivity|].
  destruct (XReal.sqrt _) as [s| | |]; cbn [XReal.div]; auto.
  destruct (XReal.is0 s); [|left; apply f_equal; lra].
  rewrite is0_true by reflexivity. now right.
Qed.

Lemma corr_null (ref x : list R) :
  List.length x = List.length ref ->
  (2 <= List.length x)%nat ->
  corr x (null_of ref) = NaN.
Proof. intros HL Hn. unfold null_of. now apply corr_constant. Qed.

(** The row of any method against the null baseline: the compatible error
    is NaN and the last column [False]. *)
Lemma null_row (ref : list R) (mi : string * list R) :
  List.length (snd mi) = List.length ref ->
  (2 <= List.length (snd mi))%nat ->
  exists a b c,
    row_of ref mi ("null"%string, null_of ref) = Row (fst mi) "null" a b c NaN false.
Proof.
  destruct mi as [m_i d_i]. cbn [fst snd]. intros HL Hn. unfold row_of.
  destruct (pick_bounds _ _ _ _ _ _) as [lower upper].
  rewrite (corr_null ref d_i HL Hn), comp_error_nan, significance_nan.
  now eexists _, _, _.
Qed.

End Correlation.

(** ** The correlation of a series with itself moved by a constant *)

Section ShiftedCorrelation.
Local Open Scope R_scope.

Lemma Rsum_shifted (c : R) (l : list R) :
  Spec.Rsum (Scenario.shifted c l) = Spec.Rsum l + INR (List.length l) * c.
Proof.
  unfold Scenario.shifted. induction l as [|x l IH].
  - simpl. ring.
  - cbn [map Spec.Rsum fold_right List.length].
    fold (Spec.Rsum (map (fun x => x + c) l)). fold (Spec.Rsum l).
    rewrite IH, S_INR. ring.
Qed.

Lemma mean_shifted (c : R) (l : list R) :
  l <> [] -> Spec.mean (Scenario.shifted c l) = Spec.mean l + c.
Proof.
  intros H. unfold Spec.mean. rewrite Rsum_shifted, shifted_length.
  field. apply not_0_INR. destruct l; simpl; congruence.
Qed.

Lemma centered_shifted (c : R) (l : list R) :
  l <> [] -> Spec.centered (Scenario.shifted c l) = Spec.centered l.
Proof.
  intros H. unfold Spec.centered. rewrite mean_shifted by assumption.
  unfold Scenario.shifted. rewrite map_map. apply map_ext. intros x. ring.
Qed.

Lemma clip_one (q : R) : q = 1 -> clip (Fin q) (Fin (-1)) (Fin 1) = Fin 1.
Proof.
  intros ->. unfold clip. cbn [fltb xreal_float XReal.ltb].
  destruct (Rlt_dec 1 (-1)); [lra|]. destruct (Rlt_dec 1 1); [lra | reflexivity].
Qed.

(** A series that is not constant and the same series moved by a constant
    have correlation one. *)
Lemma corr_shifted (c : R) (l : list R) :
  (2 <= List.length l)%nat ->
  0 < Spec.dot (Spec.centered l) (Spec.centered l) ->
  corr l (Scenario.shifted c l) = Fin 1.
Proof.
  intros Hn Hvar.
  assert (Hl : l <> []) by (intros E; rewrite E in Hn; simpl in Hn; lia).
  rewrite corr_series by (rewrite ?shifted_length; auto).
  rewrite (centered_shifted c Hl).
  set (v := Spec.dot (Spec.centered l) (Spec.centered l) * (1 / (INR (List.length l) - 1))).
  assert (Hv : 0 < v).
  { subst v. apply Rmult_lt_0_compat; [assumption|].
    apply Rdiv_lt_0_compat; [lra|]. apply le_INR in Hn. simpl in Hn. lra. }
  pose proof (sqrt_lt_R0 v Hv) as Hs. pose proof (sqrt_sqrt v (Rlt_le _ _ Hv)) as Hss.
  cbn [fsqrt fdiv xreal_float]. rewrite sqrt_fin by lra.
  rewrite !div_fin by lra.
  apply clip_one. rewrite <- Hss at 1. field. lra.
Qed.

Lemma dot_self_nonneg (a : list R) : 0 <= Spec.dot a a.
Proof.
  induction a as [|u a IH]; cbn [Spec.dot]; [lra|].
  pose proof (Rle_0_sqr u) as H. unfold Rsqr in H. lra.
Qed.

Lemma ref_mean : Spec.mean Scenario.ref = 5.5.
Proof.
  unfold Spec.mean, Scenario.ref. cbn [List.length Spec.Rsum fold_right].
  replace (INR 10) with 10 by (simpl; lra). lra.
Qed.

Lemma ref_not_constant :
  0 < Spec.dot (Spec.centered Scenario.ref) (Spec.centered Scenario.ref).
Proof.
  unfold Spec.centered. rewrite ref_mean. unfold Scenario.ref.
  cbn [map Spec.dot].
  pose proof (dot_self_nonneg (map (fun v => v - 5.5) [2; 3; 4; 5; 6; 7; 8; 9; 10])) as H.
  cbn [map] in H. nra.
Qed.

Lemma corr_B_C : corr Scenario.B Scenario.C = Fin 1.
Proof.
  apply corr_shifted; [simpl; lia | exact ref_not_constant].
Qed.

End ShiftedCorrelation.

(** ** Second scenario: B is the reference, C the reference plus five *)

Section ScenarioBC.
Local Open Scope R_scope.
Variable ref : list R.
Hypothesis ten : List.length ref = 10%nat.

Let cols : list (string * list R) :=
  [("B"%string, ref); ("C"%string, Scenario.shifted 5 ref)].

Lemma ref_ne : ref <> [].
Proof. intros E. rewrite E in ten. discriminate. Qed.

Lemma B_rmse : Spec.rmse ref ref = 0.
Proof.
  rewrite (@rmse_constant_error 0 ref ref (diffs_self ref) ref_ne). apply Rabs_R0.
Qed.

Lemma C_rmse : Spec.rmse (Scenario.shifted 5 ref) ref = 5.
Proof.
  rewrite (@rmse_constant_error 5 _ ref (diffs_shifted 5 ref) ref_ne).
  apply Rabs_pos_eq. lra.
Qed.

Lemma BC_names : NoDup ("REF"%string :: map fst cols).
Proof. repeat constructor; simpl; intuition discriminate. Qed.

Lemma BC_lengths : Forall (fun p => List.length (snd p) = List.length ref) cols.
Proof. repeat constructor. apply shifted_length. Qed.

(** The three rows of the run, in order. *)
Lemma BC_run :
  main (table_of ref cols) []
  = (Ok (stats_of ref (map snd (registry ref cols))),
     [Text header;
      row_of ref ("B"%string, ref) ("C"%string, Scenario.shifted 5 ref);
      row_of ref ("B"%string, ref) ("null"%string, null_of ref);
      row_of ref ("C"%string, Scenario.shifted 5 ref) ("null"%string, null_of ref)]).
Proof.
  rewrite (@main_series ref cols); [reflexivity | lia | exact BC_names | exact BC_lengths].
Qed.

(** The row of (B, C): the difference 5 is not less than the compatible
    error, which is the lower error of C when the correlation is a number. *)
Lemma BC_row :
  exists comp,
    row_of ref ("B"%string, ref) ("C"%string, Scenario.shifted 5 ref)
    = Row "B" "C" (Fin 0) (Fin 5) (Fin (0 - 5)) comp false
    /\ (corr ref (Scenario.shifted 5 ref) = NaN /\ comp = NaN
        \/ (exists rho, corr ref (Scenario.shifted 5 ref) = Fin rho)
           /\ comp = Fin (5 * (1 - sqrt (1 - Spec.k 10)))).
Proof.
  unfold row_of. rewrite B_rmse, C_rmse, shifted_length, ten.
  unfold pick_bounds. cbn [fltb xreal_float XReal.ltb].
  destruct (Rlt_dec 5 0) as [Hlt|_]; [lra|].
  assert (H10 : (9 <= 10)%nat) by lia.
  pose proof (lower_factor_bounds H10) as Hlf.
  destruct (corr_range ref (Scenario.shifted 5 ref)) as [E | (rho & E & Hrho)]; rewrite E.
  - exists NaN. rewrite comp_error_nan, significance_nan.
    split; [reflexivity | left; now split].
  - rewrite (comp_error_fin _ _ Hrho).
    assert (Ec : sqrt (Spec.upper 0 10 * Spec.upper 0 10
                       + Spec.lower 5 10 * Spec.lower 5 10
                       - 2 * rho * Spec.upper 0 10 * Spec.lower 5 10)
                 = 5 * (1 - sqrt (1 - Spec.k 10))).
    { unfold Spec.upper, Spec.lower.
      replace (_ - _) with ((5 * (1 - sqrt (1 - Spec.k 10))) * (5 * (1 - sqrt (1 - Spec.k 10))))
        by ring.
      apply sqrt_square. lra. }
    rewrite Ec. exists (Fin (5 * (1 - sqrt (1 - Spec.k 10)))).
    split; [|right; split; [now exists rho | reflexivity]].
    f_equal. destruct (significance_of _ _ _) eqn:Es; [|reflexivity].
    apply significance_fin in Es.
    rewrite Rabs_left in Es by lra. lra.
Qed.

End ScenarioBC.

Section ScenarioBCTheorems.
Local Open Scope R_scope.

(** C6, as the code has it.  With a reference of ten points, B identical to
    it and C the reference plus five, the run prints for the pair (B, C) the
    RMSE values 0 and 5 and, in the last column, [False]: the difference 5 is
    not less than the compatible error, which is the lower error of C,
    [5*(1 - sqrt(1 - 1.96*sqrt(2)/3))], about 3.62 (or NaN, when the
    reference is constant and the correlation undefined).  The column is
    headed "same?": [False] is the verdict that the two methods differ. *)
Theorem identical_vs_shifted_verdict (ref : list R) :
  List.length ref = 10%nat ->
  exists s comp rest,
    main (table_of ref [("B"%string, ref); ("C"%string, Scenario.shifted 5 ref)]) []
    = (Ok s, Text header :: Row "B" "C" (Fin 0) (Fin 5) (Fin (0 - 5)) comp false :: rest)
    /\ (comp = NaN \/ comp = Fin (5 * (1 - sqrt (1 - 1.96 * sqrt 2 / 3))))
    /\ 3.62 < 5 * (1 - sqrt (1 - 1.96 * sqrt 2 / 3)) < 3.63.
Proof.
  intros Hten. destruct (@BC_row _ Hten) as (comp & Erow & Hcomp).
  eexists _, comp, _. split; [|split].
  - rewrite (@BC_run _ Hten), Erow. reflexivity.
  - rewrite <- k_10. destruct Hcomp as [[_ ->] | [_ ->]]; [now left | now right].
  - rewrite <- k_10. pose proof lower_factor_10. lra.
Qed.

Lemma identical_vs_shifted_verdict_witness :
  exists s comp rest,
    main Scenario.table []
    = (Ok s, Text header :: Row "B" "C" (Fin 0) (Fin 5) (Fin (0 - 5)) comp false :: rest).
Proof.
  destruct (@identical_vs_shifted_verdict Scenario.ref eq_refl)
    as (s & comp & rest & E & _).
  exists s, comp, rest. exact E.
Defined.

(** The run on the table of the scenario, row by row. *)
Lemma scenario_table_run :
  exists s a2 b2 c2 a3 b3 c3,
    main Scenario.table []
    = (Ok s, [Text header;
              Row "B" "C" (Fin 0) (Fin 5) (Fin (0 - 5))
                  (Fin (5 * (1 - sqrt (1 - Spec.k 10)))) false;
              Row "B" "null" a2 b2 c2 NaN false;
              Row "C" "null" a3 b3 c3 NaN false]).
Proof.
  assert (Hten : List.length Scenario.ref = 10%nat) by reflexivity.
  destruct (@BC_row _ Hten) as (comp & Erow & Hcomp).
  destruct (@null_row Scenario.ref ("B"%string, Scenario.ref))
    as (a2 & b2 & c2 & E2); [reflexivity | simpl; lia |].
  destruct (@null_row Scenario.ref ("C"%string, Scenario.C))
    as (a3 & b3 & c3 & E3); [reflexivity | simpl; lia |].
  cbn [fst] in E2, E3.
  exists (stats_of Scenario.ref
            (map snd (registry Scenario.ref [("B"%string, Scenario.ref); ("C"%string, Scenario.C)]))),
         a2, b2, c2, a3, b3, c3.
  unfold Scenario.table. change Scenario.B with Scenario.ref.
  unfold Scenario.C in *. rewrite (@BC_run _ Hten), Erow, E2, E3.
  destruct Hcomp as [[E _] | [_ ->]]; [|reflexivity].
  pose proof corr_B_C as H1. unfold Scenario.B, Scenario.C in H1. congruence.
Qed.

(** C6, as the specification states it, does not hold: the run on the
    scenario prints no row for (B, C) whose last column is [True]. *)
Lemma identical_vs_shifted_not_True :
  ~ (exists s rmse_B rmse_C diff comp before after,
        main Scenario.table []
        = (Ok s, before ++ Row "B" "C" rmse_B rmse_C diff comp true :: after)).
Proof.
  intros (s & rB & rC & d & comp & before & after & H).
  destruct scenario_table_run as (s' & a2 & b2 & c2 & a3 & b3 & c3 & E).
  rewrite E in H. injection H as _ H.
  assert (Hin : In (Row "B" "C" rB rC d comp true) (before ++ Row "B" "C" rB rC d comp true :: after))
    by (apply in_or_app; right; now left).
  rewrite <- H in Hin. simpl in Hin.
  destruct Hin as [Hin | [Hin | [Hin | [Hin | []]]]]; discriminate Hin.
Qed.

End ScenarioBCTheorems.

Section PairwiseWitness.

Lemma pairwise_rule_witness :
  exists s rows, main Scenario.table [] = (Ok s, [] ++ Text header :: rows).
Proof.
  destruct (@pairwise_rule Scenario.ref
              [("B"%string, Scenario.B); ("C"%string, Scenario.C)] [])
    as (s & rows & E & _).
  - simpl. lia.
  - repeat constructor; simpl; intuition discriminate.
  - repeat constructor.
  - exists s, rows. exact E.
Defined.

End PairwiseWitness.

(** ** Tables with fewer than nine rows *)

Section TooFewRows.
Context {F : Type} {FL : Float F}.

(** With fewer than nine rows the first call of [rmse] prints its message and
    returns [None]; unpacking it raises [TypeError] and the run stops before
    the pairwise table. *)
Lemma main_too_few_rows (ref : list F) (cols : list (string * list F))
    (out : list (line F)) :
  NoDup ("REF"%string :: map fst cols) ->
  Forall (fun p => List.length (snd p) = List.length ref) cols ->
  (List.length ref < 9)%nat ->
  main (("REF"%string, ref) :: cols) out
  = (Raise TypeError, out ++ [Text (not_enough_points (len ref))]).
Proof.
  intros Hnames Hlen Hn. unfold main, bind. unfold lift at 1.
  assert (Hf : field "REF" (("REF"%string, ref) :: cols) = Ok ref) by reflexivity.
  rewrite Hf. cbn [map fst tl].
  rewrite collect_fields
    by (intros [k v] Hin; apply field_In; [exact Hnames | now right]).
  rewrite Nat.add_1_r. cbn [seq for_fold]. unfold bind, metrics_step at 1, bind.
  unfold lift at 1.
  destruct cols as [|[k d] cols].
  - cbn [map app index nth_error].
    rewrite rmse_not_enough_points_any by (now rewrite length_map).
    unfold len. rewrite length_map. reflexivity.
  - inversion Hlen as [|? ? Hd _]; subst. cbn [snd] in Hd.
    cbn [map snd app index nth_error].
    rewrite rmse_not_enough_points_any by lia.
    unfold len. rewrite Hd. reflexivity.
Qed.

End TooFewRows.

(** ** [mae] has no guard *)

Section MaeNoGuard.
Context {F : Type} {FL : Float F}.

(** Whatever the number of points, on two series of one length [mae] returns
    a triple, prints nothing and raises nothing. *)
Lemma mae_always_returns (X Y : list F) (out : list (line F)) :
  List.length X = List.length Y ->
  exists t, mae X Y out = (Ok t, out).
Proof.
  intros H. unfold mae, bind, lift, ret, elementwise.
  rewrite H, Nat.eqb_refl. now eexists.
Qed.

End MaeNoGuard.

(** ** Runs in binary64 *)

Section Binary64Runs.

(** C4: what the code does below nine points.  On [X = [1, 2, 3]] and
    [Y = [0, 0, 0]] in binary64, [mae] raises nothing and returns the triple
    [(2.0, nan, 1.4409301068170506)], where [rmse] on the same input prints
    its message and returns [None]. *)
Theorem mae_three_points_binary64 :
  mae (map B64.of_Z [1; 2; 3]%Z) (map B64.of_Z [0; 0; 0]%Z) []
  = (Ok (S754_finite false 4503599627370496 (-51),
         S754_nan,
         S754_finite false 6489372292128198 (-52)), [])
  /\ rmse (map B64.of_Z [1; 2; 3]%Z) (map B64.of_Z [0; 0; 0]%Z) []
     = (Ok None, [Text "Not enough points. 3 datapoints given. At least 9 is required"]).
Proof. split; vm_compute; reflexivity. Qed.

(** The lower factor [1 - sqrt(1 - 1.96*sqrt(2)/sqrt(N-1))] in binary64 is
    NaN for [N] from 2 to 8 (and for 0 and 1 as well). *)
Lemma lower_factor_nan_binary64 (n : nat) :
  (n <= 8)%nat ->
  (of_int 1 - fsqrt (of_int 1 - c1_96 * fsqrt (of_int 2)
                               / fsqrt (of_int (Z.of_nat n - 1))))%flt
  = S754_nan.
Proof.
  intros H.
  do 9 (destruct n as [|n]; [vm_compute; reflexivity|]). lia.
Qed.

(** In binary64 too the lower error of [mae] is NaN on every input of two to
    eight points, finite or not. *)
Lemma mae_lower_nan_binary64 (X Y : list B64.binary64)
    (out : list (line B64.binary64)) :
  List.length X = List.length Y ->
  (2 <= List.length X <= 8)%nat ->
  exists m ue, mae X Y out = (Ok (m, S754_nan, ue), out).
Proof.
  intros HL HN. unfold mae, bind, lift, ret, elementwise.
  rewrite HL, Nat.eqb_refl. unfold len.
  rewrite lower_factor_nan_binary64 by lia.
  assert (Hnan : forall m : B64.binary64, (m * S754_nan)%flt = S754_nan)
    by (intros m; destruct m; reflexivity).
  rewrite Hnan. now eexists _, _.
Qed.

(** The first scenario in binary64: [rmse] and [mae] return
    [(1.0, 0.72423354219633973, 0.38706627842739438)], [me] returns
    [(1.0, 0.0)]. *)
Example scenario_A_binary64 :
  rmse Scenario.A64 Scenario.ref64 []
  = (Ok (Some (B64.of_Z 1,
               S754_finite false 6523315821529300 (-53),
               S754_finite false 6972766189173192 (-54))), [])
  /\ mae Scenario.A64 Scenario.ref64 []
     = (Ok (B64.of_Z 1,
            S754_finite false 6523315821529300 (-53),
            S754_finite false 6972766189173192 (-54)), [])
  /\ me Scenario.A64 Scenario.ref64 [] = (Ok (B64.of_Z 1, S754_zero false), []).
Proof. repeat split; vm_compute; reflexivity. Qed.

(** The second scenario in binary64: the row of (B, C) has RMSE 0 and 5,
    compatible error 3.6211677109816987 and [False]; the rows against the
    null baseline have a NaN compatible error and [False]. *)
Example scenario_BC_binary64 :
  snd (main Scenario.table64 [])
  = [Text header;
     Row "B" "C" (S754_zero false) (B64.of_Z 5) (B64.of_Z (-5))
         (S754_finite false 8154144776911625 (-51)) false;
     Row "B" "null" (S754_zero false)
         (S754_finite false 6467802548588784 (-51))
         (S754_finite true 6467802548588784 (-51)) S754_nan false;
     Row "C" "null" (B64.of_Z 5)
         (S754_finite false 6467802548588784 (-51))
         (S754_finite false 4791196519837456 (-51)) S754_nan false].
Proof. vm_compute. reflexivity. Qed.

End Binary64Runs.

(** * Further properties of the code *)

(** ** Shapes: mismatch and broadcasting *)

Section Shapes.
Context {F : Type} {FL : Float F}.

Lemma elementwise_mismatch (op : F -> F -> F) (X Y : list F) :
  List.length X <> List.length Y ->
  List.length X <> 1%nat -> List.length Y <> 1%nat ->
  elementwise op X Y = Raise ValueError.
Proof.
  intros Hne HX HY. unfold elementwise.
  destruct (Nat.eqb_spec (List.length X) (List.length Y)) as [E|_]; [contradiction|].
  destruct X as [|x [|x' X']]; destruct Y as [|y [|y' Y']];
    simpl in *; congruence.
Qed.

Lemma zip_with_repeat (op : F -> F -> F) (X : list F) (y : F) :
  zip_with op X (repeat y (List.length X)) = map (fun x => op x y) X.
Proof. induction X as [|x X IH]; simpl; [reflexivity | now rewrite IH]. Qed.

Lemma elementwise_scalar (op : F -> F -> F) (X : list F) (y : F) :
  elementwise op X [y] = elementwise op X (repeat y (List.length X)).
Proof.
  unfold elementwise. rewrite repeat_length, Nat.eqb_refl, zip_with_repeat.
  destruct X as [|x [|x' X']]; reflexivity.
Qed.

(** Two series of different lengths, neither of length one: [mae] and [me]
    raise numpy's [ValueError] and print nothing, and so does [rmse] when the
    first series has at least nine points. *)
Theorem metrics_length_mismatch (X Y : list F) (out : list (line F)) :
  List.length X <> List.length Y ->
  List.length X <> 1%nat -> List.length Y <> 1%nat ->
  mae X Y out = (Raise ValueError, out)
  /\ me X Y out = (Raise ValueError, out)
  /\ ((9 <= List.length X)%nat -> rmse X Y out = (Raise ValueError, out)).
Proof.
  intros Hne HX HY.
  pose proof (elementwise_mismatch fsub X Y Hne HX HY) as E.
  unfold mae, me, rmse, bind, lift. rewrite E.
  repeat split. intros H9.
  destruct (Z.ltb_spec (len X) 9) as [Hlt|_]; [unfold len in Hlt; lia | reflexivity].
Qed.

(** A reference of length one is broadcast: the three metrics of [X] against
    [[y]] are those of [X] against [y] repeated [len(X)] times. *)
Theorem scalar_reference_broadcast (X : list F) (y : F) (out : list (line F)) :
  rmse X [y] out = rmse X (repeat y (List.length X)) out
  /\ mae X [y] out = mae X (repeat y (List.length X)) out
  /\ me X [y] out = me X (repeat y (List.length X)) out.
Proof.
  unfold rmse, mae, me, bind, lift.
  rewrite (elementwise_scalar fsub X y). repeat split.
Qed.

End Shapes.

Lemma metrics_length_mismatch_witness :
  mae (series [1; 2; 3]%R) (series [1; 2]%R) [] = (Raise ValueError, [])
  /\ me (series [1; 2; 3]%R) (series [1; 2]%R) [] = (Raise ValueError, []).
Proof.
  destruct (@metrics_length_mismatch xreal _ (series [1; 2; 3]%R) (series [1; 2]%R) [])
    as (Hmae & Hme & _); simpl; try lia.
  now split.
Defined.

(** ** The driver on any table, over any float *)

Section DriverOutcome.
Context {F : Type} {FL : Float F}.

Lemma field_missing (k : string) (data : list (string * list F)) :
  ~ In k (map fst data) -> field k data = Raise ValueError.
Proof.
  induction data as [|[k0 v0] data IH]; simpl; intros H; [reflexivity|].
  destruct (String.eqb_spec k0 k) as [->|_]; [exfalso; apply H; now left|].
  apply IH. intros Hin. apply H. now right.
Qed.

Lemma field_found (k : string) (data : list (string * list F)) :
  In k (map fst data) -> exists v, field k data = Ok v.
Proof.
  induction data as [|[k0 v0] data IH]; simpl; intros H; [contradiction|].
  destruct (String.eqb_spec k0 k) as [->|Hne]; [now eexists|].
  destruct H as [E|H]; [contradiction | now apply IH].
Qed.

(** Without a column named [REF] the run stops at [data['REF']] with numpy's
    [ValueError], before anything is printed. *)
Theorem main_missing_reference (data : list (string * list F)) (out : list (line F)) :
  ~ In "REF"%string (map fst data) ->
  main data out = (Raise ValueError, out).
Proof.
  intros H. unfold main, bind. unfold lift at 1.
  now rewrite (field_missing _ _ H).
Qed.

Lemma collect_found (A B : Type) (f : A -> result B) (xs : list A) (out : list (line F)) :
  (forall x, In x xs -> exists b, f x = Ok b) ->
  exists bs, collect xs (fun x => lift (f x)) out = (Ok bs, out)
             /\ List.length bs = List.length xs.
Proof.
  induction xs as [|x xs IH]; intros H.
  - exists []. now split.
  - destruct (H x) as [b Eb]; [now left|].
    destruct IH as (bs & Ebs & Hlen); [intros y Hy; apply H; now right|].
    exists (b :: bs). split; [|simpl; now rewrite Hlen].
    cbn [collect]. unfold bind. unfold lift at 1. rewrite Eb, Ebs. reflexivity.
Qed.

(** The metric functions raise nothing but [ValueError]. *)
Lemma elementwise_raises (op : F -> F -> F) (X Y : list F) (e : exn) :
  elementwise op X Y = Raise e -> e = ValueError.
Proof.
  unfold elementwise. destruct (Nat.eqb _ _); [discriminate|].
  destruct X as [|x [|x' X']]; destruct Y as [|y [|y' Y']];
    intros H; try discriminate H; now injection H.
Qed.

Lemma rmse_raises (X Y : list F) (out out' : list (line F)) (e : exn) :
  rmse X Y out = (Raise e, out') -> e = ValueError.
Proof.
  unfold rmse, bind, lift, print, ret.
  destruct (Z.ltb _ _); [discriminate|].
  destruct (elementwise fsub X Y) eqn:E; [discriminate|].
  intros H. injection H as <- _. exact (elementwise_raises _ _ _ E).
Qed.

Lemma mae_raises (X Y : list F) (out out' : list (line F)) (e : exn) :
  mae X Y out = (Raise e, out') -> e = ValueError.
Proof.
  unfold mae, bind, lift, ret.
  destruct (elementwise fsub X Y) eqn:E; [discriminate|].
  intros H. injection H as <- _. exact (elementwise_raises _ _ _ E).
Qed.

Lemma me_raises (X Y : list F) (out out' : list (line F)) (e : exn) :
  me X Y out = (Raise e, out') -> e = ValueError.
Proof.
  unfold me, bind, lift, ret.
  destruct (elementwise fsub X Y) eqn:E; [discriminate|].
  intros H. injection H as <- _. exact (elementwise_raises _ _ _ E).
Qed.

Lemma index_in_range (A : Type) (l : list A) (i : nat) :
  (i < List.length l)%nat -> exists a, index l i = Ok a.
Proof.
  intros H. unfold index. destruct (nth_error l i) eqn:E; [now eexists|].
  apply nth_error_None in E. lia.
Qed.

(** One turn of the first loop: it adds one entry to each list, or raises
    [ValueError] or [TypeError]. *)
Lemma metrics_step_outcome (md : list (list F)) (ref : list F) (i k : nat)
    (s : stats F) (out : list (line F)) :
  (i < List.length md)%nat ->
  stats_filled s k ->
  match metrics_step md ref i s out with
  | (Ok s', _) => stats_filled s' (S k)
  | (Raise e, _) => e = ValueError \/ e = TypeError
  end.
Proof.
  intros Hi Hs. unfold metrics_step, bind. unfold lift at 1.
  destruct (index_in_range md Hi) as [mdata ->].
  destruct (rmse mdata ref out) as [[r|e] o1] eqn:Er;
    [|left; exact (rmse_raises _ _ _ Er)].
  unfold lift at 1. destruct r as [[[mrmse mle] mue]|]; cbn [unpack3]; [|now right].
  destruct (mae mdata ref o1) as [[[[mmae maele] maeue]|e] o2] eqn:Ea;
    [|left; exact (mae_raises _ _ _ Ea)].
  destruct (me mdata ref o2) as [[[mme mmee]|e] o3] eqn:Em;
    [|left; exact (me_raises _ _ _ Em)].
  unfold ret, stats_filled in *. cbn [rmse_list lower_error upper_error mae_list
    mae_lower mae_upper me_list me_lower me_upper].
  destruct Hs as (H1 & H2 & H3 & H4 & H5 & H6 & H7 & H8 & H9).
  rewrite !length_app, H1, H2, H3, H4, H5, H6, H7, H8, H9. cbn [List.length].
  repeat split; lia.
Qed.

Lemma metrics_loop_outcome (md : list (list F)) (ref : list F) (xs : list nat)
    (k : nat) (s : stats F) (out : list (line F)) :
  (forall i, In i xs -> (i < List.length md)%nat) ->
  stats_filled s k ->
  match for_fold xs (metrics_step md ref) s out with
  | (Ok s', _) => stats_filled s' (k + List.length xs)
  | (Raise e, _) => e = ValueError \/ e = TypeError
  end.
Proof.
  revert k s out. induction xs as [|i xs IH]; intros k s out Hin Hs.
  - cbn. now rewrite Nat.add_0_r.
  - cbn [for_fold]. unfold bind.
    pose proof (@metrics_step_outcome md ref i k s out (Hin i (or_introl eq_refl)) Hs) as H.
    destruct (metrics_step md ref i s out) as [[s'|e] o]; [|exact H].
    specialize (IH (S k) s' o (fun j Hj => Hin j (or_intror Hj)) H).
    cbn [List.length]. now rewrite Nat.add_succ_r.
Qed.

Lemma corrcoef_raises (x y : list F) (e : exn) :
  corrcoef x y = Raise e -> e = ValueError.
Proof.
  unfold corrcoef. destruct (Nat.eqb _ _); [discriminate|].
  intros H. now injection H.
Qed.

(** One turn of the inner loop of the table: a row, or [ValueError]. *)
Lemma pair_step_outcome (methods : list string) (md : list (list F))
    (s : stats F) (i j nm : nat) (out : list (line F)) :
  List.length methods = nm -> List.length md = nm -> stats_filled s nm ->
  (i < nm)%nat -> (j < nm)%nat ->
  match pair_step methods md s i j out with
  | (Ok _, _) => True
  | (Raise e, _) => e = ValueError
  end.
Proof.
  intros Hm Hd (H1 & H2 & H3 & _) Hi Hj.
  unfold pair_step, bind, lift.
  destruct (@index_in_range _ methods i) as [m_i ->]; [lia|].
  destruct (@index_in_range _ methods j) as [m_j ->]; [lia|].
  destruct (@index_in_range _ (rmse_list s) i) as [r_i ->]; [lia|].
  destruct (@index_in_range _ (rmse_list s) j) as [r_j ->]; [lia|].
  destruct (@index_in_range _ md i) as [d_i ->]; [lia|].
  destruct (@index_in_range _ md j) as [d_j ->]; [lia|].
  destruct (corrcoef d_i d_j) as [r|e] eqn:Ec; [|exact (corrcoef_raises _ _ Ec)].
  destruct (@index_in_range _ (lower_error s) i) as [le_i ->]; [lia|].
  destruct (@index_in_range _ (lower_error s) j) as [le_j ->]; [lia|].
  destruct (@index_in_range _ (upper_error s) i) as [ue_i ->]; [lia|].
  destruct (@index_in_range _ (upper_error s) j) as [ue_j ->]; [lia|].
  destruct (fltb r_j r_i); exact I.
Qed.

Lemma for_each_outcome (A : Type) (xs : list A)
    (body : A -> M F unit) (out : list (line F)) :
  (forall x o, In x xs ->
     match body x o with (Ok _, _) => True | (Raise e, _) => e = ValueError end) ->
  match for_each xs body out with
  | (Ok _, _) => True
  | (Raise e, _) => e = ValueError
  end.
Proof.
  revert out. induction xs as [|x xs IH]; intros out H; [exact I|].
  cbn [for_each]. unfold bind.
  pose proof (H x out (or_introl eq_refl)) as Hx.
  destruct (body x out) as [[u|e] o]; [|exact Hx].
  apply IH. intros y o' Hy. apply H. now right.
Qed.

(** The run on any table: it ends normally with one entry per method in each
    of the nine lists, or with [ValueError] or [TypeError]. *)
Lemma main_outcome (data : list (string * list F)) (out : list (line F)) :
  match main data out with
  | (Ok s, _) => stats_filled s (List.length (tl data) + 1)
  | (Raise e, _) => e = ValueError \/ e = TypeError
  end.
Proof.
  unfold main, bind. unfold lift at 1.
  destruct (field "REF" data) as [ref|e] eqn:Eref.
  2:{ left. destruct data as [|[k v] data]; cbn in Eref.
      - now injection Eref.
      - destruct (String.eqb k "REF"); [discriminate|].
        clear -Eref. induction data as [|[k' v'] data IH]; cbn in Eref.
        + now injection Eref.
        + destruct (String.eqb k' "REF"); [discriminate | now apply IH]. }
  destruct (@collect_found _ _ (fun m => field m data) (tl (map fst data)) out)
    as (md & -> & Hmd).
  { intros m Hm. apply field_found. destruct data; [contradiction | now right]. }
  set (methods := tl (map fst data)) in *.
  set (nm := (List.length methods + 1)%nat).
  set (md' := md ++ [map (fun _ => np_mean ref) ref]).
  assert (Hmd' : List.length md' = nm)
    by (unfold md', nm; rewrite length_app, Hmd; reflexivity).
  assert (Hms : List.length (methods ++ ["null"%string]) = nm)
    by (unfold nm; rewrite length_app; reflexivity).
  assert (Hnm : nm = (List.length (tl data) + 1)%nat).
  { unfold nm, methods. destruct data; cbn [tl map]; [reflexivity|].
    now rewrite length_map. }
  pose proof (@metrics_loop_outcome md' ref (seq 0 nm) 0 no_stats out) as Hloop.
  destruct (for_fold (seq 0 nm) (metrics_step md' ref) no_stats out) as [[s|e] o].
  2:{ apply Hloop; [|repeat split].
      intros i Hi. apply in_seq in Hi. lia. }
  assert (Hs : stats_filled s nm).
  { rewrite length_seq in Hloop. apply Hloop; [|repeat split].
    intros i Hi. apply in_seq in Hi. lia. }
  unfold print at 1.
  pose proof (@for_each_outcome nat (seq 0 nm)
                (fun i => for_each (seq (i + 1) (nm - (i + 1)))
                            (fun j => pair_step (methods ++ ["null"%string]) md' s i j))
                (o ++ [Text header])) as Hrows.
  destruct (for_each (seq 0 nm) _ (o ++ [Text header])) as [[u|e] o'].
  - unfold ret. now rewrite <- Hnm.
  - left. apply Hrows. intros i o1 Hi. apply in_seq in Hi.
    apply (@for_each_outcome nat). intros j o2 Hj. apply in_seq in Hj.
    apply (@pair_step_outcome _ _ _ _ _ nm); auto; lia.
Qed.

(** On whatever table, a run that ends with an exception ends with
    [ValueError] (no [REF] column, series of different lengths) or with
    [TypeError] (fewer than nine rows): never with an [IndexError], every
    list is read inside its bounds. *)
Theorem main_exceptions (data : list (string * list F))
    (out out' : list (line F)) (e : exn) :
  main data out = (Raise e, out') ->
  e = ValueError \/ e = TypeError.
Proof.
  intros H. pose proof (main_outcome data out) as Ho. now rewrite H in Ho.
Qed.

(** When the run ends normally, each of the nine lists has one entry per
    method, the candidates and the null baseline, and the lower and upper
    error lists of the mean error are the same list. *)
Theorem main_fills_lists (data : list (string * list F)) (out out' : list (line F))
    (s : stats F) :
  main data out = (Ok s, out') ->
  let nm := List.length data in
  List.length (rmse_list s) = nm /\ List.length (lower_error s) = nm
  /\ List.length (upper_error s) = nm
  /\ List.length (mae_list s) = nm /\ List.length (mae_lower s) = nm
  /\ List.length (mae_upper s) = nm
  /\ List.length (me_list s) = nm /\ List.length (me_lower s) = nm
  /\ List.length (me_upper s) = nm
  /\ me_upper s = me_lower s.
Proof.
  intros H nm. pose proof (main_outcome data out) as Ho. rewrite H in Ho.
  assert (E : (List.length (tl data) + 1)%nat = nm).
  { subst nm. destruct data as [|p data]; [|simpl; lia].
    unfold main, bind in H. unfold lift at 1 in H. cbn in H. discriminate H. }
  rewrite E in Ho. destruct Ho as (H1 & H2 & H3 & H4 & H5 & H6 & H7 & H8 & H9).
  repeat split; try assumption. now rewrite H9.
Qed.

End DriverOutcome.

Lemma main_missing_reference_witness :
  main [("A"%string, series [1; 2; 3]%R)] [] = (Raise ValueError, []).
Proof.
  apply (@main_missing_reference xreal _ [("A"%string, series [1; 2; 3]%R)] []).
  simpl. intuition discriminate.
Defined.

Lemma main_exceptions_witness :
  ValueError = ValueError \/ ValueError = TypeError.
Proof.
  apply (@main_exceptions xreal _ [("A"%string, series [1; 2; 3]%R)] [] []).
  reflexivity.
Defined.

Lemma main_fills_lists_witness :
  exists s out', main Scenario.table [] = (Ok s, out')
                 /\ List.length (rmse_list s) = 3%nat
                 /\ me_upper s = me_lower s.
Proof.
  destruct scenario_table_run as (s & a2 & b2 & c2 & a3 & b3 & c3 & E).
  destruct (@main_fills_lists xreal _ _ _ _ _ E) as (H1 & _ & _ & _ & _ & _ & _ & _ & _ & H10).
  eexists _, _. split; [exact E|]. split; [exact H1 | exact H10].
Defined.

Lemma main_too_few_rows_witness :
  main [("REF"%string, series [1; 2; 3]%R); ("A"%string, series [1; 2; 4]%R)] []
  = (Raise TypeError,
     [Text "Not enough points. 3 datapoints given. At least 9 is required"]).
Proof.
  apply (@main_too_few_rows xreal _ (series [1; 2; 3]%R)
           [("A"%string, series [1; 2; 4]%R)] []).
  - repeat constructor; simpl; intuition discriminate.
  - repeat constructor.
  - simpl. lia.
Defined.

(** ** How many rows the table has *)

Section PairCount.

Lemma pairs_from_count (n m : nat) :
  (m <= n)%nat ->
  (2 * List.length (flat_map (fun i => map (pair i) (seq (i + 1) (n - (i + 1))))
                             (seq (n - m) m)))%nat
  = (m * (m - 1))%nat.
Proof.
  induction m as [|m IH]; intros H; [reflexivity|].
  cbn [seq flat_map]. rewrite length_app, length_map, length_seq.
  replace (S (n - S m)) with (n - m)%nat by lia.
  specialize (IH ltac:(lia)). nia.
Qed.

Lemma pairs_count (nm : nat) : (2 * List.length (pairs nm) = nm * (nm - 1))%nat.
Proof.
  unfold pairs. pose proof (@pairs_from_count nm nm (le_n nm)) as H.
  now rewrite Nat.sub_diag in H.
Qed.

(** With [M] candidate series of reals of one length [N >= 9], the table has
    [nm*(nm-1)/2] rows after its header, where [nm = M + 1] counts the
    candidates and the null baseline. *)
Theorem table_row_count (ref : list R) (cols : list (string * list R))
    (out : list (line xreal)) :
  (9 <= List.length ref)%nat ->
  NoDup ("REF"%string :: map fst cols) ->
  Forall (fun p => List.length (snd p) = List.length ref) cols ->
  let nm := (List.length cols + 1)%nat in
  exists s rows,
    main (table_of ref cols) out = (Ok s, out ++ Text header :: rows)
    /\ (2 * List.length rows = nm * (nm - 1))%nat.
Proof.
  intros Hn Hnames Hlen nm.
  exists (stats_of ref (map snd (registry ref cols))), (rows_of ref (registry ref cols)).
  split; [now apply main_series|].
  unfold rows_of. rewrite length_map, pairs_count.
  unfold registry. now rewrite length_app.
Qed.

Lemma table_row_count_witness :
  exists s rows,
    main Scenario.table [] = (Ok s, [] ++ Text header :: rows)
    /\ (2 * List.length rows = 3 * 2)%nat.
Proof.
  apply (@table_row_count Scenario.ref
           [("B"%string, Scenario.B); ("C"%string, Scenario.C)] []).
  - simpl. lia.
  - repeat constructor; simpl; intuition discriminate.
  - repeat constructor.
Defined.

End PairCount.

(** ** Swapping the two series *)

Section Swap.
Local Open Scope R_scope.

Lemma sub_swap (x y : xreal) : XReal.sub y x = XReal.opp (XReal.sub x y).
Proof.
  destruct x as [a| | |], y as [b| | |]; cbn; try reflexivity.
  apply f_equal. ring.
Qed.

Lemma sq_opp (a : xreal) : sq (XReal.opp a) = sq a.
Proof.
  destruct a as [a| | |]; cbn; try reflexivity. apply f_equal. ring.
Qed.

Lemma abs_opp (a : xreal) : fabs (XReal.opp a) = fabs a.
Proof.
  destruct a as [a| | |]; cbn; try reflexivity. apply f_equal, Rabs_Ropp.
Qed.

Lemma zip_with_sub_swap (X Y : list xreal) :
  zip_with fsub Y X = map XReal.opp (zip_with fsub X Y).
Proof.
  revert Y. induction X as [|x X IH]; intros [|y Y]; cbn [zip_with map]; try reflexivity.
  rewrite IH. f_equal. apply sub_swap.
Qed.

(** [rmse] and [mae] do not depend on the order of the two series, whatever
    floats they hold (NaN and infinities included). *)
Theorem rmse_mae_symmetric (X Y : list xreal) (out : list (line xreal)) :
  List.length X = List.length Y ->
  rmse X Y out = rmse Y X out /\ mae X Y out = mae Y X out.
Proof.
  intros HL. unfold rmse, mae, bind, lift, ret, elementwise, len.
  rewrite HL, Nat.eqb_refl, (zip_with_sub_swap X Y), !map_map.
  rewrite (map_ext (fun x => sq (XReal.opp x)) sq sq_opp).
  rewrite (map_ext (fun x => fabs (XReal.opp x)) fabs abs_opp).
  split; reflexivity.
Qed.

Lemma rmse_mae_symmetric_witness :
  rmse (series [1; 2; 3]) (series [3; 2; 2]) [] = rmse (series [3; 2; 2]) (series [1; 2; 3]) []
  /\ mae (series [1; 2; 3]) (series [3; 2; 2]) [] = mae (series [3; 2; 2]) (series [1; 2; 3]) [].
Proof.
  apply (@rmse_mae_symmetric (series [1; 2; 3]) (series [3; 2; 2]) []). reflexivity.
Defined.

Lemma diffs_swap (X Y : list R) : Spec.diffs Y X = map Ropp (Spec.diffs X Y).
Proof.
  revert Y. induction X as [|x X IH]; intros [|y Y]; cbn [Spec.diffs map]; try reflexivity.
  rewrite IH. f_equal. ring.
Qed.

Lemma Rsum_opp (l : list R) : Spec.Rsum (map Ropp l) = - Spec.Rsum l.
Proof.
  induction l as [|x l IH]; simpl; [ring|].
  fold (Spec.Rsum (map Ropp l)). fold (Spec.Rsum l). rewrite IH. ring.
Qed.

Lemma mean_opp (l : list R) : Spec.mean (map Ropp l) = - Spec.mean l.
Proof.
  unfold Spec.mean. rewrite Rsum_opp, length_map. unfold Rdiv. ring.
Qed.

Lemma s_N_opp (l : list R) : Spec.s_N (map Ropp l) = Spec.s_N l.
Proof.
  unfold Spec.s_N. rewrite mean_opp, length_map, map_map.
  rewrite (map_ext (fun x => Rsqr (- x - - Spec.mean l))
                   (fun e => Rsqr (e - Spec.mean l))); [reflexivity|].
  intros x. unfold Rsqr. ring.
Qed.

(** Swapping the two series flips the sign of the mean error and keeps its
    half-width. *)
Theorem me_antisymmetric (X Y : list R) (out : list (line xreal)) :
  List.length X = List.length Y ->
  (1 <= List.length X)%nat ->
  exists m e,
    me (series X) (series Y) out = (Ok (Fin m, Fin e), out)
    /\ me (series Y) (series X) out = (Ok (Fin (- m), Fin e), out).
Proof.
  intros HL HN. exists (Spec.me X Y), (Spec.me_e X Y). split.
  - now apply me_series.
  - rewrite (me_series Y X (eq_sym HL) out) by lia.
    unfold Spec.me, Spec.me_e.
    now rewrite diffs_swap, mean_opp, s_N_opp, HL.
Qed.

Lemma me_antisymmetric_witness :
  exists m e,
    me (series [1; 2; 3]) (series [3; 2; 2]) [] = (Ok (Fin m, Fin e), [])
    /\ me (series [3; 2; 2]) (series [1; 2; 3]) [] = (Ok (Fin (- m), Fin e), []).
Proof.
  apply (@me_antisymmetric [1; 2; 3] [3; 2; 2] [] eq_refl). simpl. lia.
Defined.

End Swap.

(** ** The shape of the interval *)

Section IntervalShape.
Local Open Scope R_scope.

Lemma factors_ordered (n : nat) :
  (9 <= n)%nat ->
  0 < sqrt (1 + Spec.k n) - 1 <= 1 - sqrt (1 - Spec.k n)
  /\ 1 - sqrt (1 - Spec.k n) <= 1.
Proof.
  intros H. pose proof (k_le_1 H) as Hk.
  assert (Hp : 0 < Spec.k n) by (apply k_pos; lia).
  pose proof (lower_factor_bounds H) as Hl.
  assert (H2 : (2 <= n)%nat) by lia. pose proof (upper_factor_pos H2) as Hu.
  pose proof (sqrt_pos (1 - Spec.k n)) as Hb.
  pose proof (sqrt_sqrt (1 - Spec.k n)) as Hbb.
  pose proof (sqrt_sqrt (1 + Spec.k n)) as Haa.
  repeat split; try lra. nra.
Qed.

(** From nine points on the interval of [rmse] and of [mae] is lopsided
    downwards and stays above zero: [0 <= ue <= le <= estimate]. *)
Theorem interval_ordered (X Y : list R) (out : list (line xreal)) :
  List.length X = List.length Y ->
  (9 <= List.length X)%nat ->
  exists r le ue m le' ue',
    rmse (series X) (series Y) out = (Ok (Some (Fin r, Fin le, Fin ue)), out)
    /\ mae (series X) (series Y) out = (Ok (Fin m, Fin le', Fin ue'), out)
    /\ 0 <= ue <= le /\ le <= r
    /\ 0 <= ue' <= le' /\ le' <= m.
Proof.
  intros HL HN.
  pose proof (factors_ordered HN) as (Hf1 & Hf2).
  pose proof (spec_rmse_nonneg X Y) as Hr. pose proof (spec_mae_nonneg X Y) as Hm.
  eexists _, _, _, _, _, _. split; [apply rmse_series; assumption|]. split.
  - rewrite (mae_series X Y HL out) by lia.
    rewrite lower_factor_code by assumption. reflexivity.
  - unfold Spec.lower, Spec.upper. repeat split; nra.
Qed.

Lemma interval_ordered_witness :
  exists r le ue m le' ue',
    rmse (series [1; 2; 3; 4; 5; 6; 7; 8; 9]) (series [0; 0; 0; 0; 0; 0; 0; 0; 0]) []
    = (Ok (Some (Fin r, Fin le, Fin ue)), [])
    /\ mae (series [1; 2; 3; 4; 5; 6; 7; 8; 9]) (series [0; 0; 0; 0; 0; 0; 0; 0; 0]) []
       = (Ok (Fin m, Fin le', Fin ue'), [])
    /\ 0 <= ue <= le /\ le <= r
    /\ 0 <= ue' <= le' /\ le' <= m.
Proof.
  apply (@interval_ordered [1; 2; 3; 4; 5; 6; 7; 8; 9] [0; 0; 0; 0; 0; 0; 0; 0; 0] []
           eq_refl).
  simpl. lia.
Defined.

End IntervalShape.

(** ** Empty arrays *)

Section DegenerateSizes.
Local Open Scope R_scope.

(** On empty arrays [mae] and [me] return NaN in every component, the mean
    of nothing being [0/0]; [rmse] prints its message and returns [None]. *)
Theorem empty_input (out : list (line xreal)) :
  mae [] [] out = (Ok (NaN, NaN, NaN), out)
  /\ me [] [] out = (Ok (NaN, NaN), out)
  /\ rmse [] [] out
     = (Ok None, out ++ [Text "Not enough points. 0 datapoints given. At least 9 is required"]).
Proof.
  assert (Hnan : @np_mean xreal _ [] = NaN).
  { unfold np_mean, np_sum, len.
    cbn [List.length fold_left Z.of_nat of_int fdiv xreal_float].
    unfold XReal.div. now rewrite is0_true. }
  split; [|split].
  - unfold mae, bind, lift, ret, elementwise.
    cbn [List.length Nat.eqb zip_with map]. rewrite Hnan. reflexivity.
  - unfold me, stdevp, bind, lift, ret, elementwise.
    cbn [List.length Nat.eqb zip_with map]. rewrite Hnan.
    fold (@np_mean xreal _ []). rewrite Hnan, c1_96_fin. reflexivity.
  - reflexivity.
Qed.

End DegenerateSizes.

(** ** A NaN sample, in binary64 *)

Section NaNSample.
Local Open Scope flt_scope.

Lemma add_nan_l (y : B64.binary64) : S754_nan + y = S754_nan.
Proof. reflexivity. Qed.

Lemma add_nan_r (x : B64.binary64) : x + S754_nan = S754_nan.
Proof. destruct x; reflexivity. Qed.

Lemma sub_nan_l (y : B64.binary64) : S754_nan - y = S754_nan.
Proof. reflexivity. Qed.

Lemma sub_nan_r (x : B64.binary64) : x - S754_nan = S754_nan.
Proof. destruct x; reflexivity. Qed.

Lemma mul_nan_l (y : B64.binary64) : S754_nan * y = S754_nan.
Proof. reflexivity. Qed.

Lemma mul_nan_r (x : B64.binary64) : x * S754_nan = S754_nan.
Proof. destruct x; reflexivity. Qed.

Lemma div_nan_l (y : B64.binary64) : S754_nan / y = S754_nan.
Proof. reflexivity. Qed.

Lemma abs_nan : @fabs B64.binary64 _ S754_nan = S754_nan.
Proof. reflexivity. Qed.

Lemma sq_nan : @sq B64.binary64 _ S754_nan = S754_nan.
Proof. reflexivity. Qed.

Lemma sqrt_nan : @fsqrt B64.binary64 _ S754_nan = S754_nan.
Proof. reflexivity. Qed.

Lemma zip_sub_nan (X Y : list B64.binary64) :
  List.length X = List.length Y ->
  In S754_nan X \/ In S754_nan Y -> In S754_nan (zip_with fsub X Y).
Proof.
  revert Y. induction X as [|x X IH]; intros [|y Y] HL H; simpl in *;
    try discriminate; try tauto.
  injection HL as HL.
  destruct H as [[->|H]|[->|H]].
  - left. reflexivity.
  - right. apply IH; auto.
  - left. apply sub_nan_r.
  - right. apply IH; auto.
Qed.

Lemma fold_add_from_nan (l : list B64.binary64) : fold_left fadd l S754_nan = S754_nan.
Proof. induction l as [|x l IH]; simpl; [reflexivity | exact IH]. Qed.

Lemma np_sum_nan (l : list B64.binary64) : In S754_nan l -> np_sum l = S754_nan.
Proof.
  unfold np_sum. generalize (@of_int B64.binary64 _ 0) as acc.
  induction l as [|x l IH]; intros acc H; [contradiction|].
  cbn [fold_left]. destruct H as [->|H].
  - rewrite add_nan_r. apply fold_add_from_nan.
  - now apply IH.
Qed.

Lemma np_mean_nan (l : list B64.binary64) : In S754_nan l -> np_mean l = S754_nan.
Proof. intros H. unfold np_mean. now rewrite np_sum_nan. Qed.

Lemma in_map_nan (f : B64.binary64 -> B64.binary64) (l : list B64.binary64) :
  f S754_nan = S754_nan -> In S754_nan l -> In S754_nan (map f l).
Proof. intros Hf H. rewrite <- Hf. now apply in_map. Qed.

Lemma in_map_all_nan (f : B64.binary64 -> B64.binary64) (l : list B64.binary64) :
  (forall x, f x = S754_nan) -> l <> [] -> In S754_nan (map f l).
Proof.
  intros Hf H. destruct l as [|x l]; [contradiction|]. left. apply Hf.
Qed.

(** A NaN sample in either series (what [np.genfromtxt] puts for a missing
    cell) makes every component of [mae] and of [me] NaN, and of [rmse] from
    nine points on; nothing is printed or raised.  In IEEE binary64, for all
    other samples whatever. *)
Theorem nan_sample_binary64 (X Y : list B64.binary64)
    (out : list (line B64.binary64)) :
  List.length X = List.length Y ->
  In S754_nan X \/ In S754_nan Y ->
  mae X Y out = (Ok (S754_nan, S754_nan, S754_nan), out)
  /\ me X Y out = (Ok (S754_nan, S754_nan), out)
  /\ ((9 <= List.length X)%nat -> rmse X Y out = (Ok (Some (S754_nan, S754_nan, S754_nan)), out)).
Proof.
  intros HL Hnan. pose proof (zip_sub_nan X Y HL Hnan) as Hd.
  assert (Hne : zip_with fsub X Y <> []) by (intros E; rewrite E in Hd; contradiction).
  split; [|split].
  - unfold mae, bind, lift, ret, elementwise. rewrite HL, Nat.eqb_refl.
    rewrite np_mean_nan by (apply in_map_nan; [exact abs_nan | exact Hd]). reflexivity.
  - unfold me, stdevp, bind, lift, ret, elementwise. rewrite HL, Nat.eqb_refl.
    rewrite np_mean_nan by exact Hd.
    rewrite np_sum_nan
      by (apply in_map_all_nan; [intros x; now rewrite sub_nan_r | exact Hne]).
    rewrite ?div_nan_l, ?sqrt_nan, ?mul_nan_r, ?div_nan_l. reflexivity.
  - intros H9. unfold rmse, bind, lift, ret, elementwise.
    destruct (Z.ltb_spec (len X) 9) as [Hlt|_]; [unfold len in Hlt; lia|].
    rewrite HL, Nat.eqb_refl.
    rewrite np_mean_nan by (apply in_map_nan; [exact sq_nan | exact Hd]). reflexivity.
Qed.

Lemma nan_sample_binary64_witness :
  mae [B64.of_Z 1; S754_nan; B64.of_Z 3] [B64.of_Z 1; B64.of_Z 2; B64.of_Z 3] []
  = (Ok (S754_nan, S754_nan, S754_nan), []).
Proof.
  destruct (@nan_sample_binary64 [B64.of_Z 1; S754_nan; B64.of_Z 3]
              [B64.of_Z 1; B64.of_Z 2; B64.of_Z 3] [] eq_refl) as (H & _).
  - left. right. now left.
  - exact H.
Defined.

Lemma mae_lower_nan_binary64_witness :
  exists m ue,
    mae [B64.of_Z 1; B64.of_Z 2; B64.of_Z 3] [B64.of_Z 0; B64.of_Z 0; B64.of_Z 0] []
    = (Ok (m, S754_nan, ue), []).
Proof.
  apply (@mae_lower_nan_binary64 [B64.of_Z 1; B64.of_Z 2; B64.of_Z 3]
           [B64.of_Z 0; B64.of_Z 0; B64.of_Z 0] [] eq_refl).
  simpl. lia.
Defined.

End NaNSample.

(** * The code on float64 values *)

(** ** Rounding keeps the sign *)

Section Rounding.
Variables prec emax : Z.

Lemma shr_1_nonneg (mrs : shr_record) :
  (0 <= shr_m mrs)%Z -> (0 <= shr_m (shr_1 mrs))%Z.
Proof.
  destruct mrs as [m r s]. cbn [shr_m]. intros H. unfold shr_1.
  destruct m as [|p|p]; [cbn; lia | | lia].
  destruct p; cbn [shr_m]; lia.
Qed.

Lemma iter_shr_1_nonneg (p : positive) (mrs : shr_record) :
  (0 <= shr_m mrs)%Z -> (0 <= shr_m (iter_pos shr_1 p mrs))%Z.
Proof.
  revert mrs. induction p as [p IH|p IH|]; intros mrs H; cbn [iter_pos].
  - apply IH, IH, shr_1_nonneg, H.
  - apply IH, IH, H.
  - apply shr_1_nonneg, H.
Qed.

Lemma shr_nonneg (mrs : shr_record) (e n : Z) :
  (0 <= shr_m mrs)%Z -> (0 <= shr_m (fst (shr mrs e n)))%Z.
Proof.
  intros H. unfold shr. destruct n; cbn [fst]; try assumption.
  now apply iter_shr_1_nonneg.
Qed.

Lemma shr_fexp_nonneg (m e : Z) (l : location) :
  (0 <= m)%Z -> (0 <= shr_m (fst (shr_fexp prec emax m e l)))%Z.
Proof.
  intros H. unfold shr_fexp. apply shr_nonneg.
  unfold shr_record_of_loc. destruct l as [|[| |]]; exact H.
Qed.

Lemma round_nearest_even_nonneg (m : Z) (l : location) :
  (0 <= m)%Z -> (0 <= round_nearest_even m l)%Z.
Proof.
  intros H. unfold round_nearest_even.
  destruct l as [|[| |]]; try lia. destruct (Z.even m); lia.
Qed.

(** Rounding a mantissa that is not negative gives a zero, an infinity or a
    finite number, of the sign asked for. *)
Lemma binary_round_aux_cases (sx : bool) (m e : Z) (l : location) :
  (0 <= m)%Z ->
  binary_round_aux prec emax sx m e l = S754_zero sx
  \/ binary_round_aux prec emax sx m e l = S754_infinity sx
  \/ exists m' e', binary_round_aux prec emax sx m e l = S754_finite sx m' e'.
Proof.
  intros H. unfold binary_round_aux.
  pose proof (shr_fexp_nonneg e l H) as H1.
  destruct (shr_fexp prec emax m e l) as [mrs' e']. cbn [fst] in H1.
  pose proof (round_nearest_even_nonneg (loc_of_shr_record mrs') H1) as H2.
  pose proof (shr_fexp_nonneg e' loc_Exact H2) as H3.
  destruct (shr_fexp prec emax _ e' loc_Exact) as [mrs'' e'']. cbn [fst] in H3.
  destruct (shr_m mrs'') as [|p|p]; [now left | | lia].
  destruct (e'' <=? emax - prec)%Z; [right; right; now eexists _, _ | right; now left].
Qed.

Lemma binary_round_cases (sx : bool) (mx : positive) (ex : Z) :
  binary_round prec emax sx mx ex = S754_zero sx
  \/ binary_round prec emax sx mx ex = S754_infinity sx
  \/ exists m' e', binary_round prec emax sx mx ex = S754_finite sx m' e'.
Proof.
  unfold binary_round. destruct (shl_align _ _ _) as [mz ez].
  apply binary_round_aux_cases. lia.
Qed.

(** The sign asked for is only copied into the result. *)
Lemma binary_round_aux_sign (sx : bool) (m e : Z) (l : location) :
  binary_round_aux prec emax (negb sx) m e l = SFopp (binary_round_aux prec emax sx m e l).
Proof.
  unfold binary_round_aux.
  destruct (shr_fexp prec emax m e l) as [mrs' e'].
  destruct (shr_fexp prec emax _ e' loc_Exact) as [mrs'' e''].
  destruct (shr_m mrs''); [reflexivity | | reflexivity].
  destruct (e'' <=? emax - prec)%Z; reflexivity.
Qed.

Lemma binary_round_sign (sx : bool) (mx : positive) (ex : Z) :
  binary_round prec emax (negb sx) mx ex = SFopp (binary_round prec emax sx mx ex).
Proof.
  unfold binary_round. destruct (shl_align _ _ _) as [mz ez].
  apply binary_round_aux_sign.
Qed.

End Rounding.

(** ** Binary64 operations by shape *)

Section Closure.
Local Open Scope flt_scope.

Lemma positive_nonneg (x : B64.binary64) : Shape.positive x = true -> Shape.nonneg x = true.
Proof. destruct x as [| | |[|] m e]; try discriminate; reflexivity. Qed.

Lemma nonneg_cases (x : B64.binary64) :
  Shape.nonneg x = true ->
  x = S754_zero false \/ x = S754_infinity false
  \/ exists m e, x = S754_finite false m e.
Proof.
  destruct x as [[|]|[|]| |[|] m e]; try discriminate; intros _;
    [now left | right; now left | right; right; now eexists _, _].
Qed.

Lemma round_false_nonneg (m e : Z) (l : location) :
  (0 <= m)%Z -> Shape.nonneg (binary_round_aux B64.prec B64.emax false m e l) = true.
Proof.
  intros H.
  destruct (@binary_round_aux_cases B64.prec B64.emax false m e l H)
    as [-> | [-> | (? & ? & ->)]]; reflexivity.
Qed.

Lemma binary_round_false_nonneg (p : positive) (e : Z) :
  Shape.nonneg (binary_round B64.prec B64.emax false p e) = true.
Proof.
  destruct (binary_round_cases B64.prec B64.emax false p e)
    as [-> | [-> | (? & ? & ->)]]; reflexivity.
Qed.

Lemma binary_normalize_not_nan (m e : Z) (s : bool) :
  binary_normalize B64.prec B64.emax m e s <> S754_nan.
Proof.
  unfold binary_normalize. destruct m as [|p|p]; [discriminate | |].
  - destruct (binary_round_cases B64.prec B64.emax false p e)
      as [-> | [-> | (? & ? & ->)]]; discriminate.
  - destruct (binary_round_cases B64.prec B64.emax true p e)
      as [-> | [-> | (? & ? & ->)]]; discriminate.
Qed.

(** The count of a list as a float is never NaN and never negative. *)
Lemma of_int_nonneg (N : Z) : (0 <= N)%Z -> Shape.nonneg (of_int N : B64.binary64) = true.
Proof.
  intros H. cbn [of_int binary64_float]. unfold B64.of_Z, binary_normalize.
  destruct N as [|p|p]; [reflexivity | apply binary_round_false_nonneg | lia].
Qed.

Lemma sub_not_nan (x y : B64.binary64) :
  Shape.finite x = true -> Shape.finite y = true -> x - y <> S754_nan.
Proof.
  destruct x as [sx| | |sx mx ex], y as [sy| | |sy my ey]; try discriminate; intros _ _;
    cbn [fsub binary64_float SFsub].
  - destruct sx, sy; discriminate.
  - apply binary_normalize_not_nan.
Qed.


Lemma abs_nonneg (d : B64.binary64) : d <> S754_nan -> Shape.nonneg (fabs d) = true.
Proof. destruct d; intros H; try reflexivity. now contradiction H. Qed.

Lemma add_nonneg (a b : B64.binary64) :
  Shape.nonneg a = true -> Shape.nonneg b = true -> Shape.nonneg (a + b) = true.
Proof.
  intros Ha Hb.
  destruct (nonneg_cases _ Ha) as [-> | [-> | (ma & ea & ->)]];
    destruct (nonneg_cases _ Hb) as [-> | [-> | (mb & eb & ->)]]; try reflexivity.
  cbn [fadd binary64_float SFadd cond_Zopp]. unfold binary_normalize.
  destruct (shl_align ma ea (Z.min ea eb)) as [m1 e1].
  destruct (shl_align mb eb (Z.min ea eb)) as [m2 e2]. cbn [fst Z.add].
  apply binary_round_false_nonneg.
Qed.

Lemma fold_add_nonneg (l : list B64.binary64) (acc : B64.binary64) :
  Forall (fun x => Shape.nonneg x = true) l -> Shape.nonneg acc = true ->
  Shape.nonneg (fold_left fadd l acc) = true.
Proof.
  revert acc. induction l as [|x l IH]; intros acc Hl Ha; [exact Ha|].
  inversion Hl; subst. cbn [fold_left]. apply IH; [assumption|]. now apply add_nonneg.
Qed.

Lemma np_sum_nonneg (l : list B64.binary64) :
  Forall (fun x => Shape.nonneg x = true) l -> Shape.nonneg (np_sum l) = true.
Proof. intros H. unfold np_sum. now apply fold_add_nonneg. Qed.

Lemma div_nonneg (a d : B64.binary64) :
  Shape.nonneg a = true -> Shape.positive d = true -> Shape.nonneg (a / d) = true.
Proof.
  destruct d as [| | |[|] md ed]; try discriminate. intros Ha _.
  destruct (nonneg_cases _ Ha) as [-> | [-> | (ma & ea & ->)]]; try reflexivity.
  cbn [fdiv binary64_float SFdiv xorb].
  destruct (SFdiv_core_binary B64.prec B64.emax (Z.pos ma) ea (Z.pos md) ed)
    as [[q e'] l] eqn:E.
  apply round_false_nonneg.
  unfold SFdiv_core_binary in E.
  set (m' := match (ea - ed - _)%Z with Z.pos _ => _ | 0%Z => _ | Z.neg _ => _ end) in E.
  assert (Hm' : (0 <= m')%Z).
  { subst m'. destruct (_ - _ - _)%Z; try lia. apply Z.shiftl_nonneg. lia. }
  pose proof (Z.div_pos m' (Z.pos md) Hm' ltac:(lia)) as Hd.
  unfold Z.div in Hd. destruct (Z.div_eucl m' (Z.pos md)) as [q0 r0].
  injection E as <- _ _. exact Hd.
Qed.

Lemma sqrt_nonneg (a : B64.binary64) : Shape.nonneg a = true -> Shape.nonneg (fsqrt a) = true.
Proof.
  intros Ha.
  destruct (nonneg_cases _ Ha) as [-> | [-> | (ma & ea & ->)]]; try reflexivity.
  cbn [fsqrt binary64_float SFsqrt].
  destruct (SFsqrt_core_binary B64.prec B64.emax (Z.pos ma) ea) as [[q e'] l] eqn:E.
  apply round_false_nonneg.
  unfold SFsqrt_core_binary in E.
  set (m' := match (ea - _)%Z with Z.pos _ => _ | 0%Z => _ | Z.neg _ => _ end) in E.
  pose proof (Z.sqrt_nonneg m') as Hs. rewrite <- Z.sqrtrem_sqrt in Hs.
  destruct (Z.sqrtrem m') as [q0 r0]. injection E as <- _ _. exact Hs.
Qed.

Lemma mul_nonneg_positive (a f : B64.binary64) :
  Shape.nonneg a = true -> Shape.positive f = true -> Shape.nonneg (a * f) = true.
Proof.
  destruct f as [| | |[|] mf ef]; try discriminate. intros Ha _.
  destruct (nonneg_cases _ Ha) as [-> | [-> | (ma & ea & ->)]]; try reflexivity.
  cbn [fmul binary64_float SFmul xorb]. apply round_false_nonneg. lia.
Qed.

End Closure.

(** ** The interval factors in binary64 *)

Section FactorsBinary64.
Local Open Scope flt_scope.

Lemma holds_from_at (p : Z -> bool) (n : nat) (lo z : Z) :
  holds_from p n lo = true -> (lo <= z < lo + Z.of_nat n)%Z -> p z = true.
Proof.
  revert lo. induction n as [|n IH]; intros lo H Hz; [lia|].
  cbn [holds_from] in H. apply andb_prop in H as [H0 H1].
  destruct (Z.eq_dec z lo) as [->|Hne]; [exact H0|].
  apply (IH (lo + 1)%Z); [exact H1 | lia].
Qed.

(** Every length from 9 to 10000, evaluated. *)
Lemma factors_evaluated : holds_from factors_positive (Z.to_nat 9992) 9 = true.
Proof. vm_compute. reflexivity. Qed.

Lemma factors_positive_from_9 (N : Z) :
  (9 <= N <= 10000)%Z ->
  let k : B64.binary64 := c1_96 * fsqrt (of_int 2) / fsqrt (of_int (N - 1)) in
  Shape.positive (of_int N : B64.binary64) = true
  /\ Shape.positive (fsqrt (of_int N : B64.binary64)) = true
  /\ Shape.positive (of_int 1 - fsqrt (of_int 1 - k)) = true
  /\ Shape.positive (fsqrt (of_int 1 + k) - of_int 1) = true.
Proof.
  intros H k.
  assert (E : factors_positive N = true).
  { apply (holds_from_at _ _ factors_evaluated). lia. }
  unfold factors_positive in E. fold k in E.
  apply andb_prop in E as [E E4]. apply andb_prop in E as [E E3].
  apply andb_prop in E as [E1 E2]. auto.
Qed.

(** From two to eight points the radicand [1 - k] is negative, its square
    root NaN; the upper factor is a finite number above zero. *)
Lemma factors_below_9 (N : Z) :
  (2 <= N <= 8)%Z ->
  let k : B64.binary64 := c1_96 * fsqrt (of_int 2) / fsqrt (of_int (N - 1)) in
  Shape.positive (of_int N : B64.binary64) = true
  /\ (of_int 1 - k <? of_int 0) = true
  /\ fsqrt (of_int 1 - k) = S754_nan
  /\ Shape.positive (fsqrt (of_int 1 + k) - of_int 1) = true.
Proof.
  intros H.
  assert (C : (N = 2 \/ N = 3 \/ N = 4 \/ N = 5 \/ N = 6 \/ N = 7 \/ N = 8)%Z) by lia.
  destruct C as [-> | [-> | [-> | [-> | [-> | [-> | ->]]]]]];
    vm_compute; repeat split; reflexivity.
Qed.

End FactorsBinary64.

(** ** The metrics on finite binary64 series *)

Section FiniteSeries.
Local Open Scope flt_scope.

Lemma zip_with_length (F : Type) (op : F -> F -> F) (X Y : list F) :
  List.length X = List.length Y -> List.length (@zip_with F op X Y) = List.length X.
Proof.
  revert Y. induction X as [|x X IH]; intros [|y Y] H; try discriminate; [reflexivity|].
  cbn [zip_with List.length]. f_equal. apply IH. now injection H.
Qed.

Lemma zip_sub_not_nan (X Y : list B64.binary64) :
  Forall (fun x => Shape.finite x = true) X ->
  Forall (fun y => Shape.finite y = true) Y ->
  Forall (fun d => d <> S754_nan) (zip_with fsub X Y).
Proof.
  intros HX. revert Y. induction HX as [|x X Hx _ IH]; intros Y HY; [constructor|].
  destruct HY as [|y Y Hy HY]; [constructor|].
  cbn [zip_with]. constructor; [now apply sub_not_nan | now apply IH].
Qed.

Variables X Y : list B64.binary64.
Hypothesis finite_X : Forall (fun x => Shape.finite x = true) X.
Hypothesis finite_Y : Forall (fun y => Shape.finite y = true) Y.
Hypothesis same_length : List.length X = List.length Y.


Lemma magnitudes_nonneg :
  Forall (fun x => Shape.nonneg x = true) (map fabs (zip_with fsub X Y)).
Proof.
  apply Forall_map. eapply Forall_impl; [|exact (zip_sub_not_nan finite_X finite_Y)].
  intros d. apply abs_nonneg.
Qed.


Lemma mean_magnitudes_nonneg :
  Shape.positive (of_int (len X) : B64.binary64) = true ->
  Shape.nonneg (np_mean (map fabs (zip_with fsub X Y))) = true.
Proof.
  intros HN. unfold np_mean. apply div_nonneg; [apply np_sum_nonneg, magnitudes_nonneg|].
  unfold len. rewrite length_map, zip_with_length by exact same_length. exact HN.
Qed.

End FiniteSeries.

Section MetricsBinary64.
Local Open Scope flt_scope.


(** C10, as the code has it on float64.  On two series of finite floats of
    one length [N], [2 <= N <= 8], [mae] returns a triple and reports
    nothing: the radicand [1 - k] is negative and its square root NaN, so the
    lower error is NaN; the point estimate [mean(|X-Y|)] and the upper error
    are not NaN and not negative, each [+0], a positive number or [+inf]. *)
Theorem mae_small_sample_binary64 (X Y : list B64.binary64)
    (out : list (line B64.binary64)) :
  Forall (fun x => Shape.finite x = true) X ->
  Forall (fun y => Shape.finite y = true) Y ->
  List.length X = List.length Y ->
  (2 <= len X <= 8)%Z ->
  let N := len X in
  let k := c1_96 * fsqrt (of_int 2) / fsqrt (of_int (N - 1)) in
  let m := np_mean (map fabs (zip_with fsub X Y)) in
  let ue := m * (fsqrt (of_int 1 + k) - of_int 1) in
  mae X Y out = (Ok (m, S754_nan, ue), out)
  /\ (of_int 1 - k <? of_int 0) = true
  /\ fsqrt (of_int 1 - k) = S754_nan
  /\ Shape.nonneg m = true /\ Shape.nonneg ue = true.
Proof.
  intros HX HY HL HN N k m ue.
  destruct (factors_below_9 HN) as (H0 & H1 & H2 & H3). fold N k in H1, H2, H3.
  assert (Hm : Shape.nonneg m = true) by (apply mean_magnitudes_nonneg; assumption).
  split; [|repeat split; try assumption; now apply mul_nonneg_positive].
  unfold mae, bind, lift, ret, elementwise. fold N.
  rewrite HL, Nat.eqb_refl. fold k. rewrite H2. fold m ue.
  replace (m * (of_int 1 - S754_nan)) with (S754_nan : B64.binary64); [reflexivity|].
  now destruct m.
Qed.

(** [mae] on float64, from nine points on.  On two series of finite floats
    of one length [N], [9 <= N <= 10000], [mae] returns the triple
    [(mean(|X-Y|), mae*(1 - sqrt(1-k)), mae*(sqrt(1+k) - 1))], every
    operation rounded, and none of the three components is NaN or negative:
    each is [+0], a positive number or [+inf]. *)
Theorem mae_triple_binary64 (X Y : list B64.binary64)
    (out : list (line B64.binary64)) :
  Forall (fun x => Shape.finite x = true) X ->
  Forall (fun y => Shape.finite y = true) Y ->
  List.length X = List.length Y ->
  (9 <= len X <= 10000)%Z ->
  let N := len X in
  let k := c1_96 * fsqrt (of_int 2) / fsqrt (of_int (N - 1)) in
  let m := np_mean (map fabs (zip_with fsub X Y)) in
  let le := m * (of_int 1 - fsqrt (of_int 1 - k)) in
  let ue := m * (fsqrt (of_int 1 + k) - of_int 1) in
  mae X Y out = (Ok (m, le, ue), out)
  /\ Shape.nonneg m = true /\ Shape.nonneg le = true /\ Shape.nonneg ue = true.
Proof.
  intros HX HY HL HN N k m le ue.
  destruct (factors_positive_from_9 HN) as (H0 & _ & H1 & H2). fold N k in H1, H2.
  assert (Hm : Shape.nonneg m = true) by (apply mean_magnitudes_nonneg; assumption).
  split; [|repeat split; try assumption; now apply mul_nonneg_positive].
  unfold mae, bind, lift, ret, elementwise. fold N.
  rewrite HL, Nat.eqb_refl. reflexivity.
Qed.

End MetricsBinary64.


Lemma mae_triple_binary64_witness :
  exists m le ue,
    mae (map B64.of_Z [1; 2; 3; 4; 5; 6; 7; 8; 9]%Z)
        (map B64.of_Z [0; 0; 0; 0; 0; 0; 0; 0; 0]%Z) []
    = (Ok (m, le, ue), [])
    /\ Shape.nonneg m = true /\ Shape.nonneg le = true /\ Shape.nonneg ue = true.
Proof.
  destruct (@mae_triple_binary64 (map B64.of_Z [1; 2; 3; 4; 5; 6; 7; 8; 9]%Z)
              (map B64.of_Z [0; 0; 0; 0; 0; 0; 0; 0; 0]%Z) [])
    as (E & Hm & Hle & Hue).
  - repeat constructor.
  - repeat constructor.
  - reflexivity.
  - unfold len. simpl. lia.
  - eexists _, _, _. split; [exact E|]. repeat split; assumption.
Defined.

Lemma mae_small_sample_binary64_witness :
  exists m ue,
    mae (map B64.of_Z [1; 2; 3]%Z) (map B64.of_Z [0; 0; 0]%Z) []
    = (Ok (m, S754_nan, ue), [])
    /\ Shape.nonneg m = true /\ Shape.nonneg ue = true.
Proof.
  destruct (@mae_small_sample_binary64 (map B64.of_Z [1; 2; 3]%Z)
              (map B64.of_Z [0; 0; 0]%Z) [])
    as (E & _ & _ & Hm & Hue).
  - repeat constructor.
  - repeat constructor.
  - reflexivity.
  - unfold len. simpl. lia.
  - eexists _, _. split; [exact E|]. split; assumption.
Defined.


(** C10, as the specification states it, does not hold on float64: the sum
    of two residuals of [2^1023] overflows, and the point estimate and the
    upper error are [+inf], not finite. *)
Lemma mae_small_sample_not_finite :
  ~ (exists m le ue,
        mae [B64.of_Z (2 ^ 1023); B64.of_Z (2 ^ 1023)] [B64.of_Z 0; B64.of_Z 0] []
        = (Ok (m, le, ue), [])
        /\ Shape.finite m = true /\ Shape.finite ue = true).
Proof.
  intros (m & le & ue & E & Hm & _).
  assert (E' : mae [B64.of_Z (2 ^ 1023); B64.of_Z (2 ^ 1023)] [B64.of_Z 0; B64.of_Z 0] []
               = (Ok (S754_infinity false, S754_nan, S754_infinity false), []))
    by (vm_compute; reflexivity).
  rewrite E' in E. injection E as <- _ _. discriminate Hm.
Qed.

(** ** The run on a well-formed table, over any float *)

Section GenericRun.
Context {F : Type} {FL : Float F}.
Local Open Scope flt_scope.

Lemma rmse_returns (X Y : list F) (out : list (line F)) :
  List.length X = List.length Y -> (9 <= List.length X)%nat ->
  exists t, rmse X Y out = (Ok (Some t), out).
Proof.
  intros HL HN. unfold rmse, bind, lift, ret, elementwise.
  destruct (Z.ltb_spec (len X) 9) as [Hlt|_]; [unfold len in Hlt; lia|].
  rewrite HL, Nat.eqb_refl. now eexists.
Qed.

Lemma me_returns (X Y : list F) (out : list (line F)) :
  List.length X = List.length Y -> exists t, me X Y out = (Ok t, out).
Proof.
  intros HL. unfold me, bind, lift, ret, elementwise.
  rewrite HL, Nat.eqb_refl. now eexists.
Qed.

(** One turn of the first loop on a series as long as the reference. *)
Lemma metrics_step_returns (md : list (list F)) (ref d : list F) (i k : nat)
    (s : stats F) (out : list (line F)) :
  nth_error md i = Some d -> List.length d = List.length ref ->
  (9 <= List.length ref)%nat -> stats_filled s k ->
  exists s', metrics_step md ref i s out = (Ok s', out) /\ stats_filled s' (S k).
Proof.
  intros Hi Hd Hn Hs. unfold metrics_step, bind. unfold lift at 1.
  rewrite (index_nth _ _ Hi).
  destruct (@rmse_returns d ref out Hd) as [[[mrmse mle] mue] ->]; [lia|].
  cbn [lift unpack3].
  destruct (@mae_always_returns _ _ d ref out Hd) as [[[mmae maele] maeue] ->].
  destruct (@me_returns d ref out Hd) as [[mme mmee] ->].
  eexists. split; [reflexivity|].
  unfold stats_filled in *. cbn [rmse_list lower_error upper_error mae_list
    mae_lower mae_upper me_list me_lower me_upper].
  destruct Hs as (H1 & H2 & H3 & H4 & H5 & H6 & H7 & H8 & H9).
  rewrite !length_app, H1, H2, H3, H4, H5, H6, H7, H8, H9. cbn [List.length].
  repeat split; lia.
Qed.

Lemma metrics_loop_returns (md : list (list F)) (ref : list F) (xs : list nat)
    (k : nat) (s : stats F) (out : list (line F)) :
  (forall i, In i xs ->
     exists d, nth_error md i = Some d /\ List.length d = List.length ref) ->
  (9 <= List.length ref)%nat -> stats_filled s k ->
  exists s', for_fold xs (metrics_step md ref) s out = (Ok s', out)
             /\ stats_filled s' (k + List.length xs).
Proof.
  intros Hin Hn. revert k s. induction xs as [|i xs IH]; intros k s Hs.
  - exists s. split; [reflexivity | now rewrite Nat.add_0_r].
  - destruct (Hin i (or_introl eq_refl)) as (d & Hi & Hd).
    destruct (@metrics_step_returns md ref d i k s out Hi Hd Hn Hs) as (s1 & E1 & Hs1).
    destruct (IH (fun j Hj => Hin j (or_intror Hj)) (S k) s1 Hs1) as (s' & E' & Hs').
    exists s'. split.
    + cbn [for_fold]. unfold bind. now rewrite E1.
    + cbn [List.length]. now rewrite Nat.add_succ_r.
Qed.

(** One turn of the inner loop of the table. *)
Lemma pair_step_row (names : list string) (md : list (list F)) (s : stats F)
    (i j nm n : nat) (out : list (line F)) :
  List.length names = nm -> List.length md = nm -> stats_filled s nm ->
  Forall (fun d => List.length d = n) md ->
  (i < nm)%nat -> (j < nm)%nat ->
  exists row, pair_step names md s i j out = (Ok tt, out ++ [row])
              /\ printed_pair names md (i, j) row.
Proof.
  intros Hm Hd (H1 & H2 & H3 & _) Hall Hi Hj.
  unfold pair_step, bind, lift, printed_pair. cbn [fst snd].
  destruct (nth_error names i) as [m_i|] eqn:Emi;
    [|apply nth_error_None in Emi; lia].
  destruct (nth_error names j) as [m_j|] eqn:Emj;
    [|apply nth_error_None in Emj; lia].
  destruct (nth_error md i) as [d_i|] eqn:Edi;
    [|apply nth_error_None in Edi; lia].
  destruct (nth_error md j) as [d_j|] eqn:Edj;
    [|apply nth_error_None in Edj; lia].
  rewrite (index_nth _ _ Emi), (index_nth _ _ Emj).
  destruct (@index_in_range _ (rmse_list s) i) as [r_i ->]; [lia|].
  destruct (@index_in_range _ (rmse_list s) j) as [r_j ->]; [lia|].
  rewrite (index_nth _ _ Edi), (index_nth _ _ Edj).
  assert (Ec : exists r, corrcoef d_i d_j = Ok r).
  { unfold corrcoef. rewrite Forall_forall in Hall.
    rewrite (Hall d_i (nth_error_In _ _ Edi)), (Hall d_j (nth_error_In _ _ Edj)).
    rewrite Nat.eqb_refl. now eexists. }
  destruct Ec as [r Ec]. rewrite Ec.
  destruct (@index_in_range _ (lower_error s) i) as [le_i ->]; [lia|].
  destruct (@index_in_range _ (lower_error s) j) as [le_j ->]; [lia|].
  destruct (@index_in_range _ (upper_error s) i) as [ue_i ->]; [lia|].
  destruct (@index_in_range _ (upper_error s) j) as [ue_j ->]; [lia|].
  destruct (r_j <? r_i); unfold ret, print;
    (eexists; split; [reflexivity|]);
    eexists m_i, m_j, d_i, d_j, r, r_i, r_j, _, _; repeat split; try eassumption; reflexivity.
Qed.

Lemma for_each_printed (A : Type) (xs : list A) (body : A -> M F unit)
    (P : A -> list (line F) -> Prop) :
  (forall x out, In x xs -> exists rs, body x out = (Ok tt, out ++ rs) /\ P x rs) ->
  forall out, exists rss,
    for_each xs body out = (Ok tt, out ++ List.concat rss) /\ Forall2 P xs rss.
Proof.
  induction xs as [|x xs IH]; intros H out.
  - exists []. split; [cbn; unfold ret; now rewrite app_nil_r | constructor].
  - destruct (H x out (or_introl eq_refl)) as (rs & E & HP).
    destruct (IH (fun y o Hy => H y o (or_intror Hy)) (out ++ rs)) as (rss & E' & HF).
    exists (rs :: rss). split; [|now constructor].
    cbn [for_each List.concat]. unfold bind. rewrite E, E'. now rewrite <- app_assoc.
Qed.

Lemma Forall2_singletons (A B : Type) (R : A -> B -> Prop) (xs : list A)
    (rss : list (list B)) :
  Forall2 (fun x rs => exists r, rs = [r] /\ R x r) xs rss ->
  Forall2 R xs (List.concat rss).
Proof.
  induction 1 as [|x rs xs rss (r & -> & Hr) _ IH]; [constructor|].
  cbn [List.concat app]. now constructor.
Qed.

Lemma Forall2_flat_map (A B C : Type) (R : B -> C -> Prop) (g : A -> list B)
    (xs : list A) (rss : list (list C)) :
  Forall2 (fun x rs => Forall2 R (g x) rs) xs rss ->
  Forall2 R (flat_map g xs) (List.concat rss).
Proof.
  induction 1 as [|x rs xs rss Hx _ IH]; [constructor|].
  cbn [flat_map List.concat]. now apply Forall2_app.
Qed.

(** The table loop prints one row per pair, in the order of [pairs]. *)
Lemma table_loop_rows (names : list string) (md : list (list F)) (s : stats F)
    (nm n : nat) (out : list (line F)) :
  List.length names = nm -> List.length md = nm -> stats_filled s nm ->
  Forall (fun d => List.length d = n) md ->
  exists rows,
    for_each (seq 0 nm) (fun i =>
      for_each (seq (i + 1) (nm - (i + 1))) (fun j => pair_step names md s i j)) out
    = (Ok tt, out ++ rows)
    /\ Forall2 (printed_pair names md) (pairs nm) rows.
Proof.
  intros Hm Hd Hs Hall.
  destruct (@for_each_printed nat (seq 0 nm)
              (fun i => for_each (seq (i + 1) (nm - (i + 1)))
                          (fun j => pair_step names md s i j))
              (fun i rs => Forall2 (printed_pair names md)
                             (map (pair i) (seq (i + 1) (nm - (i + 1)))) rs))
    with (out := out) as (rss & E & HF).
  - intros i o Hi. apply in_seq in Hi.
    destruct (@for_each_printed nat (seq (i + 1) (nm - (i + 1)))
                (fun j => pair_step names md s i j)
                (fun j rs => exists row, rs = [row] /\ printed_pair names md (i, j) row))
      with (out := o) as (rss & E & HF).
    + intros j o' Hj. apply in_seq in Hj.
      destruct (@pair_step_row names md s i j nm n o' Hm Hd Hs Hall) as (row & E & HP);
        [lia | lia |].
      exists [row]. split; [exact E | now exists row].
    + exists (List.concat rss). split; [exact E|].
      apply Forall2_singletons.
      clear E. revert HF. generalize (seq (i + 1) (nm - (i + 1))).
      intros l HF. induction HF; cbn [map]; constructor; assumption.
  - exists (List.concat rss). split; [exact E|].
    unfold pairs. now apply Forall2_flat_map.
Qed.

Variables (ref : list F) (cols : list (string * list F)).
Hypothesis enough : (9 <= List.length ref)%nat.
Hypothesis names_differ : NoDup ("REF"%string :: map fst cols).
Hypothesis same_length :
  Forall (fun p => List.length (snd p) = List.length ref) cols.

(** The whole run on a table whose first column is [REF], with distinct
    names and columns of one length, at least nine rows: it ends normally,
    having printed the header and one row per pair. *)
Lemma main_rows (out : list (line F)) :
  let names := map fst cols ++ ["null"%string] in
  let md := map snd cols ++ [map (fun _ => np_mean ref) ref] in
  exists s rows,
    main (("REF"%string, ref) :: cols) out = (Ok s, out ++ Text header :: rows)
    /\ Forall2 (printed_pair names md) (pairs (List.length md)) rows.
Proof.
  intros names md.
  assert (Hnm : List.length md = (List.length (map fst cols) + 1)%nat)
    by (unfold md; now rewrite length_app, !length_map).
  assert (Hnames : List.length names = (List.length (map fst cols) + 1)%nat)
    by (unfold names; now rewrite length_app).
  assert (Hall : Forall (fun d => List.length d = List.length ref) md).
  { unfold md. apply Forall_app. split.
    - apply Forall_map. exact same_length.
    - constructor; [apply length_map | constructor]. }
  destruct (@metrics_loop_returns md ref (seq 0 (List.length (map fst cols) + 1)) 0
              no_stats out) as (s & Eloop & Hs).
  { intros i Hi. apply in_seq in Hi.
    destruct (nth_error md i) as [d|] eqn:Ed; [|apply nth_error_None in Ed; lia].
    exists d. split; [reflexivity|]. rewrite Forall_forall in Hall.
    apply Hall. exact (nth_error_In _ _ Ed). }
  { exact enough. }
  { repeat split. }
  rewrite length_seq in Hs. cbn [Nat.add] in Hs.
  destruct (@table_loop_rows names md s (List.length (map fst cols) + 1)
              (List.length ref) (out ++ [Text header]) Hnames Hnm Hs Hall)
    as (rows & Erows & HF).
  exists s, rows. split; [|now rewrite Hnm].
  unfold main, bind. unfold lift at 1.
  assert (Hf : field "REF" (("REF"%string, ref) :: cols) = Ok ref) by reflexivity.
  rewrite Hf. cbn [map fst tl].
  rewrite collect_fields
    by (intros [k v] Hin; apply field_In; [exact names_differ | now right]).
  fold names md. rewrite Eloop. unfold print at 1. rewrite Erows.
  unfold ret. now rewrite <- app_assoc.
Qed.

End GenericRun.

(** ** A NaN correlation, in binary64 *)

Section NaNCorrelation.
Local Open Scope flt_scope.

Lemma comp_error_nan_binary64 (lower upper : B64.binary64) :
  comp_error_of lower upper S754_nan = S754_nan.
Proof.
  unfold comp_error_of.
  rewrite mul_nan_r, !mul_nan_l, sub_nan_r. apply sqrt_nan.
Qed.

Lemma significance_nan_binary64 (a b : B64.binary64) :
  significance_of a b S754_nan = false.
Proof.
  unfold significance_of. cbn [fltb binary64_float]. unfold SFltb.
  now destruct (fabs (a - b)).
Qed.

(** C7, as the code has it on float64.  On a table of float columns of one
    length [N >= 9] with distinct names the run ends normally, with one row
    per pair of methods; for every pair whose correlation comes out NaN the
    compatible error printed is NaN and the last column is the boolean
    [False], no number being less than NaN.  Nothing marks the pair as
    undetermined. *)
Theorem nan_correlation_binary64 (ref : list B64.binary64)
    (cols : list (string * list B64.binary64)) (out : list (line B64.binary64)) :
  (9 <= List.length ref)%nat ->
  NoDup ("REF"%string :: map fst cols) ->
  Forall (fun p => List.length (snd p) = List.length ref) cols ->
  let names := map fst cols ++ ["null"%string] in
  let md := map snd cols ++ [map (fun _ => np_mean ref) ref] in
  exists s rows,
    main (("REF"%string, ref) :: cols) out = (Ok s, out ++ Text header :: rows)
    /\ Forall2 (fun p row =>
                  exists m_i m_j d_i d_j r rmse_i rmse_j diff comp same,
                    nth_error names (fst p) = Some m_i
                    /\ nth_error names (snd p) = Some m_j
                    /\ nth_error md (fst p) = Some d_i
                    /\ nth_error md (snd p) = Some d_j
                    /\ corrcoef d_i d_j = Ok r
                    /\ row = Row m_i m_j rmse_i rmse_j diff comp same
                    /\ (r = S754_nan -> comp = S754_nan /\ same = false))
               (pairs (List.length md)) rows.
Proof.
  intros Hn Hnames Hlen names md.
  destruct (@main_rows _ _ ref cols Hn Hnames Hlen out) as (s & rows & E & HF).
  exists s, rows. split; [exact E|].
  eapply Forall2_impl; [|exact HF].
  intros p row (m_i & m_j & d_i & d_j & r & ri & rj & lower & upper
                & E1 & E2 & E3 & E4 & Er & ->).
  eexists m_i, m_j, d_i, d_j, r, ri, rj, _, _, _.
  do 5 (split; [eassumption|]). split; [reflexivity|].
  intros ->. rewrite comp_error_nan_binary64. split; [reflexivity|].
  apply significance_nan_binary64.
Qed.

End NaNCorrelation.

Lemma nan_correlation_binary64_witness :
  exists s rows, main Scenario.table64 [] = (Ok s, [] ++ Text header :: rows).
Proof.
  destruct (@nan_correlation_binary64 Scenario.ref64
              [("B"%string, Scenario.ref64); ("C"%string, Scenario.C64)] [])
    as (s & rows & E & _).
  - simpl. lia.
  - repeat constructor; simpl; intuition discriminate.
  - repeat constructor.
  - exists s, rows. exact E.
Defined.

(** C7, as the specification states it, does not hold: in the run on the
    scenario in float64 the pair of B and the null baseline has a NaN
    compatible error, and its verdict is [False], not flagged. *)
Lemma nan_verdict_not_flagged :
  ~ (forall s printed m_i m_j rmse_i rmse_j diff significance,
        main Scenario.table64 [] = (Ok s, printed) ->
        In (Row m_i m_j rmse_i rmse_j diff S754_nan significance) printed ->
        indeterminate significance).
Proof.
  intros H.
  destruct (main Scenario.table64 []) as [[s|e] printed] eqn:E.
  - assert (Ep : printed = snd (main Scenario.table64 [])) by (now rewrite E).
    rewrite scenario_BC_binary64 in Ep.
    destruct (H s printed "B"%string "null"%string (S754_zero false)
                (S754_finite false 6467802548588784 (-51))
                (S754_finite true 6467802548588784 (-51)) false eq_refl) as [_ Hf].
    + rewrite Ep. right. right. now left.
    + now apply Hf.
  - assert (Ee : fst (main Scenario.table64 []) = Raise e) by (now rewrite E).
    vm_compute in Ee. discriminate Ee.
Qed.

(** The null baseline need not have a NaN correlation: on the reference
    [1, ..., 9, 12] the mean 5.7 is rounded, the mean of its ten copies is
    rounded again, and the centred baseline is not zero.  The correlation
    of [C = REF + 5] with the baseline is a number, the compatible error of
    the pair as well, and the last column is [True]. *)
Example null_correlation_a_number :
  let ref := map B64.of_Z [1; 2; 3; 4; 5; 6; 7; 8; 9; 12]%Z in
  let C := map B64.of_Z [6; 7; 8; 9; 10; 11; 12; 13; 14; 17]%Z in
  exists r rmse_i rmse_j diff comp,
    corrcoef C (map (fun _ => np_mean ref) ref) = Ok r
    /\ r <> S754_nan
    /\ nth_error (snd (main [("REF"%string, ref); ("B"%string, ref); ("C"%string, C)] [])) 3
       = Some (Row "C" "null" rmse_i rmse_j diff comp true)
    /\ comp <> S754_nan.
Proof.
  intros ref C. eexists _, _, _, _, _.
  split; [vm_compute; reflexivity|].
  split; [discriminate|].
  split; [vm_compute; reflexivity | discriminate].
Qed.

(** ** Below nine points, and the two means, in binary64 *)

(** C3, as the specification states it, does not hold: on three points
    [rmse] raises nothing, it returns normally (with [None], after printing
    its message). *)
Lemma rmse_short_raises_nothing :
  ~ (exists e printed,
        rmse (map B64.of_Z [1; 2; 3]%Z) (map B64.of_Z [1; 2; 4]%Z) []
        = (Raise e, printed)).
Proof.
  intros (e & printed & H). vm_compute in H. discriminate H.
Qed.

(** C8, as the specification states it, does not hold on float64: on ten
    residuals of 5.7 the RMSE point estimate is 5.7 and the MAE point
    estimate the next float above, 5.700000000000001. *)
Lemma rmse_below_mae_binary64 :
  ~ (exists r le ue m le' ue',
        rmse (repeat (B64.of_Z 57 / B64.of_Z 10)%flt 10) (repeat (B64.of_Z 0) 10) []
        = (Ok (Some (r, le, ue)), [])
        /\ mae (repeat (B64.of_Z 57 / B64.of_Z 10)%flt 10) (repeat (B64.of_Z 0) 10) []
           = (Ok (m, le', ue'), [])
        /\ (r <? m)%flt = false).
Proof.
  intros (r & le & ue & m & le' & ue' & Er & Em & H).
  vm_compute in Er. vm_compute in Em.
  injection Er as <- _ _. injection Em as <- _ _.
  vm_compute in H. discriminate H.
Qed.

(** ** A series against itself, in binary64 *)

Section IdenticalSeries.
Local Open Scope flt_scope.

Lemma sub_self (x : B64.binary64) :
  Shape.finite x = true -> x - x = S754_zero false.
Proof.
  destruct x as [s| | |s m e]; try discriminate; intros _;
    cbn [fsub binary64_float SFsub].
  - now destruct s.
  - now rewrite Z.sub_diag.
Qed.

Lemma zip_sub_self (X : list B64.binary64) :
  Forall (fun x => Shape.finite x = true) X ->
  zip_with fsub X X = map (fun _ => S754_zero false : B64.binary64) X.
Proof.
  induction 1 as [|x X Hx _ IH]; [reflexivity|].
  cbn [zip_with map]. now rewrite IH, sub_self.
Qed.

Lemma fold_add_zeros (A : Type) (l : list A) :
  fold_left fadd (map (fun _ => S754_zero false : B64.binary64) l) (S754_zero false)
  = S754_zero false.
Proof. induction l as [|x l IH]; [reflexivity | exact IH]. Qed.

Lemma np_mean_zeros (A : Type) (l : list A) :
  Shape.positive (of_int (len l) : B64.binary64) = true ->
  np_mean (map (fun _ => S754_zero false : B64.binary64) l) = S754_zero false.
Proof.
  intros H. unfold np_mean, np_sum.
  change (of_int 0 : B64.binary64) with (S754_zero false : B64.binary64).
  rewrite fold_add_zeros. unfold len in *. rewrite length_map.
  destruct (of_int (Z.of_nat (List.length l)) : B64.binary64) as [| | |[|] m e];
    try discriminate. reflexivity.
Qed.

Lemma zero_mul_positive (f : B64.binary64) :
  Shape.positive f = true -> @fmul B64.binary64 _ (S754_zero false) f = S754_zero false.
Proof. destruct f as [| | |[|] m e]; try discriminate. reflexivity. Qed.

Lemma zero_div_positive (d : B64.binary64) :
  Shape.positive d = true -> @fdiv B64.binary64 _ (S754_zero false) d = S754_zero false.
Proof. destruct d as [| | |[|] m e]; try discriminate. reflexivity. Qed.

(** A method whose series is the reference itself, on [N] finite floats,
    [9 <= N <= 10000]: every residual is [+0], and so is every component of
    [rmse], [mae] and [me]. *)
Theorem identical_series_binary64 (X : list B64.binary64)
    (out : list (line B64.binary64)) :
  Forall (fun x => Shape.finite x = true) X ->
  (9 <= len X <= 10000)%Z ->
  rmse X X out = (Ok (Some (S754_zero false, S754_zero false, S754_zero false)), out)
  /\ mae X X out = (Ok (S754_zero false, S754_zero false, S754_zero false), out)
  /\ me X X out = (Ok (S754_zero false, S754_zero false), out).
Proof.
  intros HX HN.
  destruct (factors_positive_from_9 HN) as (H0 & Hs & H1 & H2).
  assert (Hsq : map sq (map (fun _ => S754_zero false : B64.binary64) X)
                = map (fun _ => S754_zero false : B64.binary64) X) by (now rewrite map_map).
  assert (Habs : map fabs (map (fun _ => S754_zero false : B64.binary64) X)
                 = map (fun _ => S754_zero false : B64.binary64) X) by (now rewrite map_map).
  assert (Hdev : map (fun x : B64.binary64 => sq (x - S754_zero false))
                     (map (fun _ => S754_zero false : B64.binary64) X)
                 = map (fun _ => S754_zero false : B64.binary64) X) by (now rewrite map_map).
  split; [|split].
  - unfold rmse, bind, lift, ret, elementwise.
    destruct (Z.ltb_spec (len X) 9) as [Hlt|_]; [lia|].
    rewrite Nat.eqb_refl, (zip_sub_self HX), Hsq, (np_mean_zeros X H0).
    change (@fsqrt B64.binary64 _ (S754_zero false)) with (S754_zero false : B64.binary64).
    now rewrite (zero_mul_positive _ H1), (zero_mul_positive _ H2).
  - unfold mae, bind, lift, ret, elementwise.
    rewrite Nat.eqb_refl, (zip_sub_self HX), Habs, (np_mean_zeros X H0).
    now rewrite (zero_mul_positive _ H1), (zero_mul_positive _ H2).
  - unfold me, stdevp, bind, lift, ret, elementwise.
    rewrite Nat.eqb_refl, (zip_sub_self HX), (np_mean_zeros X H0), Hdev.
    fold (np_mean (map (fun _ => S754_zero false : B64.binary64) X)).
    unfold np_sum.
    change (of_int 0 : B64.binary64) with (S754_zero false : B64.binary64).
    rewrite fold_add_zeros, (zero_div_positive _ H0).
    change (@fsqrt B64.binary64 _ (S754_zero false)) with (S754_zero false : B64.binary64).
    change (@fmul B64.binary64 _ c1_96 (S754_zero false)) with (S754_zero false : B64.binary64).
    now rewrite (zero_div_positive _ Hs).
Qed.

End IdenticalSeries.

Lemma identical_series_binary64_witness :
  rmse Scenario.ref64 Scenario.ref64 []
  = (Ok (Some (S754_zero false, S754_zero false, S754_zero false)), []).
Proof.
  destruct (@identical_series_binary64 Scenario.ref64 []) as (E & _).
  - repeat constructor.
  - unfold len. simpl. lia.
  - exact E.
Defined.

(** ** The half-width of the mean error is never negative *)

Section HalfWidth.
Local Open Scope flt_scope.

Lemma nonneg_not_below_zero (x : B64.binary64) :
  Shape.nonneg x = true -> (x <? of_int 0) = false.
Proof.
  intros H. destruct (nonneg_cases _ H) as [-> | [-> | (m & e & ->)]]; reflexivity.
Qed.

Lemma not_below_zero_cases (x : B64.binary64) :
  (x <? of_int 0) = false ->
  x = S754_nan \/ x = S754_zero true \/ Shape.nonneg x = true.
Proof.
  destruct x as [[|]|[|]| |[|] m e]; intros H; try discriminate H; auto.
Qed.

Lemma sqrt_not_below_zero (a : B64.binary64) : (fsqrt a <? of_int 0) = false.
Proof.
  destruct a as [s|[|]| |[|] m e]; try reflexivity.
  apply nonneg_not_below_zero, sqrt_nonneg. reflexivity.
Qed.

Lemma mul_positive_not_below_zero (c x : B64.binary64) :
  Shape.positive c = true -> (x <? of_int 0) = false -> (c * x <? of_int 0) = false.
Proof.
  intros Hc Hx.
  destruct c as [| | |[|] mc ec]; try discriminate.
  destruct (not_below_zero_cases _ Hx) as [-> | [-> | H]]; try reflexivity.
  destruct (nonneg_cases _ H) as [-> | [-> | (m & e & ->)]]; try reflexivity.
  apply nonneg_not_below_zero.
  cbn [fmul binary64_float SFmul xorb]. apply round_false_nonneg. lia.
Qed.

Lemma div_nonneg_not_below_zero (x d : B64.binary64) :
  (x <? of_int 0) = false -> Shape.nonneg d = true -> (x / d <? of_int 0) = false.
Proof.
  intros Hx Hd.
  destruct (nonneg_cases _ Hd) as [-> | [-> | (md & ed & ->)]];
    destruct (not_below_zero_cases _ Hx) as [-> | [-> | H]]; try reflexivity;
    try (destruct (nonneg_cases _ H) as [-> | [-> | (m & e & ->)]]; try reflexivity).
  apply nonneg_not_below_zero.
  apply div_nonneg; reflexivity.
Qed.

Lemma c1_96_positive : Shape.positive (c1_96 : B64.binary64) = true.
Proof. vm_compute. reflexivity. Qed.

(** Whatever the two series hold, NaN and infinities included, and whatever
    their length, the half-width [e] returned by [me] is not below zero: it
    is a zero, a positive number, [+inf] or NaN. *)
Theorem me_half_width_not_negative (X Y : list B64.binary64)
    (out out' : list (line B64.binary64)) (m e : B64.binary64) :
  me X Y out = (Ok (m, e), out') ->
  (e <? of_int 0) = false.
Proof.
  unfold me, bind, lift, ret.
  destruct (elementwise fsub X Y) as [error|ex]; [|discriminate].
  intros H.
  pose proof (f_equal (fun p : result (B64.binary64 * B64.binary64)
                                * list (line B64.binary64) =>
                         match fst p with Ok t => snd t | Raise _ => e end) H) as He.
  cbv beta iota delta [fst snd] in He. rewrite <- He.
  apply (@div_nonneg_not_below_zero
           (c1_96 * stdevp error (np_mean error) (len X)) (fsqrt (of_int (len X)))).
  - apply (@mul_positive_not_below_zero c1_96 _ c1_96_positive).
    unfold stdevp. apply sqrt_not_below_zero.
  - apply sqrt_nonneg, of_int_nonneg. unfold len. lia.
Qed.

End HalfWidth.

Lemma me_half_width_not_negative_witness :
  exists m e,
    me (repeat (B64.of_Z 57 / B64.of_Z 10)%flt 10) (repeat (B64.of_Z 0) 10) []
    = (Ok (m, e), [])
    /\ (e <? of_int 0)%flt = false.
Proof.
  assert (E : me (repeat (B64.of_Z 57 / B64.of_Z 10)%flt 10) (repeat (B64.of_Z 0) 10) []
              = (Ok (S754_finite false 6417629469002958 (-50),
                     S754_finite false 5582719936854732 (-103)), []))
    by (vm_compute; reflexivity).
  eexists _, _. split; [exact E|].
  exact (@me_half_width_not_negative _ _ _ _ _ _ E).
Defined.

(** ** A single point, in binary64 *)

Section SinglePoint.
Local Open Scope flt_scope.

(** On a single pair of points, whatever the two floats, [mae] divides by
    [sqrt(0)]: the quotient [k] is [+inf], the lower error is NaN and the
    upper error is [+inf] or NaN, never a number.  Nothing is printed or
    raised. *)
Theorem single_point_binary64 (x y : B64.binary64) (out : list (line B64.binary64)) :
  exists m ue,
    mae [x] [y] out = (Ok (m, S754_nan, ue), out)
    /\ (ue = S754_infinity false \/ ue = S754_nan).
Proof.
  unfold mae, bind, lift, ret, elementwise.
  cbn [List.length Nat.eqb zip_with map].
  set (m := np_mean [fabs (x - y)]).
  assert (Hm : m = S754_nan \/ Shape.nonneg m = true).
  { subst m. unfold np_mean, np_sum. cbn [fold_left].
    destruct (x - y) as [s|s| |s mx ex] eqn:E.
    - right. reflexivity.
    - right. reflexivity.
    - left. reflexivity.
    - right. apply div_nonneg; [|vm_compute; reflexivity]. reflexivity. }
  assert (Hlo : (of_int 1 - fsqrt (of_int 1 - c1_96 * fsqrt (of_int 2)
                                     / fsqrt (of_int (len [x] - 1)))
                 : B64.binary64) = S754_nan) by (vm_compute; reflexivity).
  assert (Hup : (fsqrt (of_int 1 + c1_96 * fsqrt (of_int 2)
                                     / fsqrt (of_int (len [x] - 1))) - of_int 1
                 : B64.binary64) = S754_infinity false) by (vm_compute; reflexivity).
  rewrite Hlo, Hup, mul_nan_r.
  eexists _, _. split; [reflexivity|].
  destruct Hm as [-> | H]; [now right|].
  destruct (nonneg_cases _ H) as [-> | [-> | (mm & em & ->)]];
    [now right | now left | now left].
Qed.

End SinglePoint.

(** ** The null baseline, in binary64 *)

Section NullBaselineBinary64.
Local Open Scope flt_scope.

Lemma sq_opp_binary64 (v : B64.binary64) : sq (SFopp v) = sq v.
Proof. destruct v as [[|]|[|]| |[|] m e]; reflexivity. Qed.

Lemma normalize_opp (z e : Z) :
  sq (binary_normalize B64.prec B64.emax (- z) e false : B64.binary64)
  = sq (binary_normalize B64.prec B64.emax z e false : B64.binary64).
Proof.
  destruct z as [|p|p]; cbn [Z.opp binary_normalize]; [reflexivity | |].
  - change true with (negb false). rewrite binary_round_sign. apply sq_opp_binary64.
  - change true with (negb false). rewrite binary_round_sign.
    symmetry. apply sq_opp_binary64.
Qed.

(** The square of a difference does not depend on its direction, rounding
    being symmetric. *)
Lemma sq_sub_swap (x y : B64.binary64) : sq (x - y) = sq (y - x).
Proof.
  destruct x as [sx|sx| |sx mx ex], y as [sy|sy| |sy my ey];
    try reflexivity;
    try (destruct sx, sy; reflexivity);
    try (destruct sx; reflexivity);
    try (destruct sy; reflexivity).
  cbn [fsub binary64_float SFsub].
  rewrite (Z.min_comm ey ex).
  rewrite <- normalize_opp. f_equal. f_equal. lia.
Qed.

Lemma zip_sub_constant (m : B64.binary64) (l : list B64.binary64) :
  zip_with fsub (map (fun _ => m) l) l = map (fun x => m - x) l.
Proof. induction l as [|x l IH]; [reflexivity|]. cbn [map zip_with]. now rewrite IH. Qed.

(** The RMSE of the null baseline, the mean of the reference repeated, is
    the population standard deviation of the reference as [stdevp] computes
    it from the reference, its mean and [N], whatever floats the reference
    holds. *)
Theorem null_baseline_rmse_binary64 (ref : list B64.binary64)
    (out : list (line B64.binary64)) :
  (9 <= List.length ref)%nat ->
  let N := len ref in
  let null := map (fun _ => np_mean ref) ref in
  let k := c1_96 * fsqrt (of_int 2) / fsqrt (of_int (N - 1)) in
  let s := stdevp ref (np_mean ref) N in
  rmse null ref out
  = (Ok (Some (s, s * (of_int 1 - fsqrt (of_int 1 - k)),
               s * (fsqrt (of_int 1 + k) - of_int 1))), out).
Proof.
  intros HN N null k s.
  assert (HL : len null = N) by (unfold len, null, N; now rewrite length_map).
  unfold rmse, bind, lift, ret, elementwise. rewrite HL.
  destruct (Z.ltb_spec N 9) as [Hlt|_]; [unfold N, len in Hlt; lia|].
  unfold null at 1. rewrite length_map, Nat.eqb_refl.
  unfold null. rewrite zip_sub_constant, map_map.
  rewrite (map_ext (fun x => sq (np_mean ref - x)) (fun x => sq (x - np_mean ref)))
    by (intros x; apply sq_sub_swap).
  assert (Es : fsqrt (np_mean (map (fun x => sq (x - np_mean ref)) ref)) = s).
  { unfold s, stdevp, np_mean at 1. unfold len. now rewrite length_map. }
  rewrite Es. reflexivity.
Qed.

End NullBaselineBinary64.

Lemma null_baseline_rmse_binary64_witness :
  exists le ue,
    rmse (map (fun _ => np_mean Scenario.ref64) Scenario.ref64) Scenario.ref64 []
    = (Ok (Some (stdevp Scenario.ref64 (np_mean Scenario.ref64) 10, le, ue)), []).
Proof.
  eexists _, _.
  apply (@null_baseline_rmse_binary64 Scenario.ref64 []).
  simpl. lia.
Defined.

(** ** The run completes, whatever the floats *)

Section RunCompletes.
Context {F : Type} {FL : Float F}.

(** On a table whose first column is [REF], with distinct names and columns
    of one length, at least nine rows, the run ends normally whatever the
    floats hold (NaN and infinities included): after the header it has
    printed one row per pair of methods, [nm*(nm-1)/2] rows for [nm]
    methods, the null baseline counted, each carrying the names of its
    pair, in the order of the two loops. *)
Theorem run_completes (ref : list F) (cols : list (string * list F))
    (out : list (line F)) :
  (9 <= List.length ref)%nat ->
  NoDup ("REF"%string :: map fst cols) ->
  Forall (fun p => List.length (snd p) = List.length ref) cols ->
  let names := map fst cols ++ ["null"%string] in
  let nm := List.length names in
  exists s rows,
    main (("REF"%string, ref) :: cols) out = (Ok s, out ++ Text header :: rows)
    /\ (2 * List.length rows = nm * (nm - 1))%nat
    /\ Forall2 (fun p row =>
                  exists m_i m_j rmse_i rmse_j diff comp same,
                    nth_error names (fst p) = Some m_i
                    /\ nth_error names (snd p) = Some m_j
                    /\ row = Row m_i m_j rmse_i rmse_j diff comp same)
               (pairs nm) rows.
Proof.
  intros Hn Hnames Hlen names nm.
  destruct (@main_rows _ _ ref cols Hn Hnames Hlen out) as (s & rows & E & HF).
  assert (Hnm : List.length (map snd cols ++ [map (fun _ => np_mean ref) ref]) = nm)
    by (unfold nm, names; now rewrite !length_app, !length_map).
  rewrite Hnm in HF.
  exists s, rows. split; [exact E|]. split.
  - rewrite <- (Forall2_length HF). apply pairs_count.
  - eapply Forall2_impl; [|exact HF].
    intros p row (m_i & m_j & d_i & d_j & r & ri & rj & lower & upper
                  & E1 & E2 & _ & _ & _ & ->).
    eexists m_i, m_j, _, _, _, _, _. repeat split; assumption.
Qed.

End RunCompletes.

Lemma run_completes_witness :
  exists s rows,
    main Scenario.table64 [] = (Ok s, [] ++ Text header :: rows)
    /\ (2 * List.length rows = 3 * 2)%nat.
Proof.
  destruct (@run_completes B64.binary64 _ Scenario.ref64
              [("B"%string, Scenario.ref64); ("C"%string, Scenario.C64)] [])
    as (s & rows & E & Hc & _).
  - simpl. lia.
  - repeat constructor; simpl; intuition discriminate.
  - repeat constructor.
  - exists s, rows. split; [exact E | exact Hc].
Defined.
